(** * Sentiment scorer and dictionary classifier: a shallow embedding

    The two Streamlit pages of the repository share one shape: a dictionary
    is built from text, a per-cell function scores or classifies one value,
    and a batch function copies a pandas DataFrame and adds derived columns.

    - [src/pages/1_app.py]: [load_dictionary_from_text],
      [continuous_sentiment_score], [process_sentiment_data];
    - [src/streamlit_app.py]: [classify_text], [process_dataframe] and the
      two dictionary-building statements of [main].

    Modelling choices, fixed here once:
    - a Python [str] is a [string] whose characters are the code points
      U+0000..U+00FF; on that range [str.lower] and [str.isspace] act
      character by character and are given by the tables below;
    - a Python [set] of strings is a [gset string]; iterating over it is
      iterating over [elements];
    - the classifier's [dict] of dictionaries is a [gmap string (gset string)]
      (no statement here depends on the order of its keys);
    - a float is the rational it denotes ([Q], compared with [==]): true
      division is the exact quotient and the literal 0.1 is 1/10;
    - a DataFrame is an object in a store, so that [df.copy()] and the column
      assignments that follow it are visible as allocation and mutation. *)

From Stdlib Require Import ZArith QArith Ascii String DecimalString.
From stdpp Require Import base option list gmap sets strings.

Local Open Scope string_scope.
#[local] Set Warnings "-clear-no-such-hyp".

(** ** Python strings *)

Module PyStr.

(** [str.isspace] on one character of U+0000..U+00FF: TAB..CR, FS..US,
    SPACE, NEL and NBSP. *)
Definition isspace (c : ascii) : bool :=
  let n := N_of_ascii c in
  ((9 <=? n) && (n <=? 13) || (28 <=? n) && (n <=? 32)
   || (n =? 133) || (n =? 160))%N.

(** [str.lower] on one character: A..Z and the Latin-1 capitals
    U+00C0..U+00DE (the multiplication sign U+00D7 apart) move up by 32. *)
Definition lower_char (c : ascii) : ascii :=
  let n := N_of_ascii c in
  if ((65 <=? n) && (n <=? 90)
      || (192 <=? n) && (n <=? 222) && negb (n =? 215))%N
  then ascii_of_N (n + 32) else c.

Fixpoint lower (s : string) : string :=
  match s with
  | "" => ""
  | String c s' => String (lower_char c) (lower s')
  end.

Fixpoint lstrip (s : string) : string :=
  match s with
  | "" => ""
  | String c s' => if isspace c then lstrip s' else s
  end.

Fixpoint rstrip (s : string) : string :=
  match s with
  | "" => ""
  | String c s' =>
      match rstrip s' with
      | "" => if isspace c then "" else String c ""
      | r => String c r
      end
  end.

(** [s.strip()] *)
Definition strip (s : string) : string := lstrip (rstrip s).

(** [s.split()]: maximal runs of non-space characters; [cur] is the word
    being read. *)
Fixpoint split_go (cur s : string) : list string :=
  match s with
  | "" => if decide (cur = "") then [] else [cur]
  | String c s' =>
      if isspace c
      then (if decide (cur = "") then [] else [cur]) ++ split_go "" s'
      else split_go (cur +:+ String c "") s'
  end.

Definition split (s : string) : list string := split_go "" s.

(** [s.split(sep)] for a one-character separator: every occurrence cuts,
    empty pieces are kept, and the result is never empty. *)
Fixpoint split_on (sep : ascii) (s : string) : list string :=
  match s with
  | "" => [""]
  | String c s' =>
      if Ascii.eqb c sep then "" :: split_on sep s'
      else match split_on sep s' with
           | w :: ws => String c w :: ws
           | [] => [String c ""]
           end
  end.

(** [s.split(sep, 1)]: the part before the first separator and, when there
    is one, the part after it (a list of one or of two pieces). *)
Fixpoint split1 (sep : ascii) (s : string) : string * option string :=
  match s with
  | "" => ("", None)
  | String c s' =>
      if Ascii.eqb c sep then ("", Some s')
      else let '(a, b) := split1 sep s' in (String c a, b)
  end.

Fixpoint startswith (p s : string) : bool :=
  match p, s with
  | "", _ => true
  | String _ _, "" => false
  | String a p', String b s' => Ascii.eqb a b && startswith p' s'
  end.

(** [sub in s] *)
Fixpoint contains (sub s : string) : bool :=
  startswith sub s
  || match s with
     | "" => false
     | String _ s' => contains sub s'
     end.

(** [sep.join(l)] *)
Fixpoint join (sep : string) (l : list string) : string :=
  match l with
  | [] => ""
  | [w] => w
  | w :: ws => w +:+ sep +:+ join sep ws
  end.

(** [str(z)] for an int *)
Definition of_Z (z : Z) : string := NilZero.string_of_int (Z.to_int z).

Definition LF : string := String "010" "".

End PyStr.

Import PyStr.

(** ** Sentiment dictionary ([src/pages/1_app.py]) *)

(** [lines = [line.strip().lower() for line in dict_text.split('\n')
              if line.strip()]] *)
Definition dict_lines (dict_text : string) : list string :=
  (λ line, lower (strip line))
    <$> filter (λ line, strip line ≠ "") (split_on "010" dict_text).

Definition positive_tags : list string := ["positive"; "pos"; "1"].
Definition negative_tags : list string := ["negative"; "neg"; "0"; "-1"].

(** One turn of the loop over [lines], on the pair
    [(positive_words, negative_words)].  When [',' in line] holds,
    [line.split(',', 1)] has two pieces, so the unpacking never fails
    ([split1_contains] below); the model leaves the sets alone there. *)
Definition add_line (acc : gset string * gset string) (line : string)
  : gset string * gset string :=
  let '(positive_words, negative_words) := acc in
  if contains "," line then
    match split1 "," line with
    | (word, Some sentiment) =>
        let word := strip word in
        let sentiment := strip sentiment in
        if bool_decide (sentiment ∈ positive_tags)
        then ({[word]} ∪ positive_words, negative_words)
        else if bool_decide (sentiment ∈ negative_tags)
        then (positive_words, {[word]} ∪ negative_words)
        else (positive_words, negative_words)
    | (_, None) => (positive_words, negative_words)
    end
  else ({[line]} ∪ positive_words, negative_words).

Definition load_dictionary_from_text (dict_text : string)
  : gset string * gset string :=
  foldl add_line (∅, ∅) (dict_lines dict_text).

(** ** Cell values *)

(** What a cell of a DataFrame, or the argument of a per-cell function, can
    be: a string, [None], the float NaN, an int, a bool or a finite float. *)
Inductive value :=
| VStr (s : string)
| VNone
| VNaN
| VInt (z : Z)
| VBool (b : bool)
| VFloat (q : Q).

(** [bool(x)], as [not text] uses it: NaN is a non-zero float, hence true. *)
Definition truthy (x : value) : bool :=
  match x with
  | VStr s => negb (bool_decide (s = ""))
  | VNone => false
  | VNaN => true
  | VInt z => negb (z =? 0)%Z
  | VBool b => b
  | VFloat q => negb (Qeq_bool q 0)
  end.

(** [pd.isna(x)] on a scalar *)
Definition isna (x : value) : bool :=
  match x with
  | VNone | VNaN => true
  | _ => false
  end.

(** Exceptions the modelled code can raise.  [Dangling] is not a Python
    exception: it is the outcome of following a reference that the store does
    not hold, which no run from an allocated table reaches. *)
Inductive exn := KeyError | AttributeError | TypeError | Dangling.

Inductive res (A : Type) :=
| Ok (a : A)
| Raise (e : exn).
Arguments Ok {A} a.
Arguments Raise {A} e.

#[global] Instance res_ret : MRet res := @Ok.
#[global] Instance res_bind : MBind res := λ A B f m,
  match m with
  | Ok a => f a
  | Raise e => Raise e
  end.

(** [series.apply(f)] for an [f] that may raise: the first exception ends
    the traversal. *)
Fixpoint apply {A : Type} (f : value → res A) (series : list value)
  : res (list A) :=
  match series with
  | [] => Ok []
  | x :: rest => y ← f x; ys ← apply f rest; Ok (y :: ys)
  end.

(** ** Sentiment scorer ([src/pages/1_app.py]) *)

Section Scorer.

(** [str(x)] on a finite float (the shortest decimal that reads back as the
    same double) is left open: the scorer is defined for any rendering. *)
Variable float_str : Q → string.

(** [str(x)] *)
Definition py_str (x : value) : string :=
  match x with
  | VStr s => s
  | VNone => "None"
  | VNaN => "nan"
  | VInt z => of_Z z
  | VBool b => if b then "True" else "False"
  | VFloat q => float_str q
  end.

Definition pos_count (words : list string) (positive_words : gset string) : Z :=
  Z.of_nat (length (filter (λ word, word ∈ positive_words) words)).

Definition neg_count (words : list string) (negative_words : gset string) : Z :=
  Z.of_nat (length (filter (λ word, word ∈ negative_words) words)).

Definition continuous_sentiment_score
    (text : value) (positive_words negative_words : gset string) : Q :=
  if negb (truthy text) || isna text then 0
  else
    let words := split (lower (py_str text)) in
    if bool_decide (words = []) then 0
    else
      let pos_count := pos_count words positive_words in
      let neg_count := neg_count words negative_words in
      let total_sentiment_words := (pos_count + neg_count)%Z in
      if (total_sentiment_words =? 0)%Z then 0
      else inject_Z (pos_count - neg_count) / inject_Z total_sentiment_words.

End Scorer.

(** A comparison [x > q] or [x < q] of a cell with a float: numbers compare
    by value ([True] is 1), NaN compares false, anything else is a
    [TypeError]. *)
Definition number_of (x : value) : res (option Q) :=
  match x with
  | VFloat q => Ok (Some q)
  | VInt z => Ok (Some (inject_Z z))
  | VBool b => Ok (Some (if b then 1 else 0)%Q)
  | VNaN => Ok None
  | VStr _ | VNone => Raise TypeError
  end.

Definition Qltb (x y : Q) : bool := negb (Qle_bool y x).

Definition py_gt (x : value) (q : Q) : res bool :=
  n ← number_of x; Ok (from_option (λ v, Qltb q v) false n).

Definition py_lt (x : value) (q : Q) : res bool :=
  n ← number_of x; Ok (from_option (λ v, Qltb v q) false n).

(** [lambda x: 'Positive' if x > 0.1 else 'Negative' if x < -0.1 else
    'Neutral'] *)
Definition sentiment_label (x : value) : res value :=
  above ← py_gt x (1 # 10);
  if (above : bool) then Ok (VStr "Positive")
  else
    below ← py_lt x (- (1 # 10));
    if (below : bool) then Ok (VStr "Negative") else Ok (VStr "Neutral").

(** ** DataFrames in a store *)

(** A DataFrame: the length of its index and its columns in order, each a
    name and a series of cells.  Column names are meant to be distinct, as
    [pd.read_csv] makes them: [col_get] and [col_set] act on the first
    column of a name, which is the only one then. *)
Record DataFrame := {
  df_index : nat;
  df_columns : list (string * list value)
}.

Abbreviation loc := positive.
Abbreviation store := (gmap loc DataFrame).

(** Computations that read and write the store and may raise. *)
Definition M (A : Type) : Type := store → res A * store.

#[global] Instance M_ret : MRet M := λ A a σ, (Ok a, σ).
#[global] Instance M_bind : MBind M := λ A B f m σ,
  match m σ with
  | (Ok a, σ') => f a σ'
  | (Raise e, σ') => (Raise e, σ')
  end.

Definition lift_res {A : Type} (r : res A) : M A := λ σ, (r, σ).

Fixpoint col_get (name : string) (cols : list (string * list value))
  : option (list value) :=
  match cols with
  | [] => None
  | (n, series) :: rest =>
      if decide (n = name) then Some series else col_get name rest
  end.

(** Column assignment: an existing column is replaced where it stands, a new
    one goes last. *)
Fixpoint col_set (name : string) (series : list value)
    (cols : list (string * list value)) : list (string * list value) :=
  match cols with
  | [] => [(name, series)]
  | (n, old) :: rest =>
      if decide (n = name) then (n, series) :: rest
      else (n, old) :: col_set name series rest
  end.

Definition df_read (df : loc) : M DataFrame := λ σ,
  match σ !! df with
  | Some t => (Ok t, σ)
  | None => (Raise Dangling, σ)
  end.

Definition df_alloc (t : DataFrame) : M loc := λ σ,
  let new := fresh (dom σ) in (Ok new, <[new := t]> σ).

Definition df_write (df : loc) (t : DataFrame) : M unit := λ σ,
  (Ok (), <[df := t]> σ).

(** [df.copy()]: a new object with the same contents. *)
Definition df_copy (df : loc) : M loc :=
  t ← df_read df; df_alloc t.

(** [df[name]] *)
Definition df_getitem (df : loc) (name : string) : M (list value) :=
  t ← df_read df;
  lift_res (from_option Ok (Raise KeyError) (col_get name (df_columns t))).

(** [df[name] = series] *)
Definition df_setitem (df : loc) (name : string) (series : list value)
  : M unit :=
  t ← df_read df;
  df_write df {| df_index := df_index t;
                 df_columns := col_set name series (df_columns t) |}.

(** [for x in xs: body(x)] *)
Fixpoint for_each {A : Type} (xs : list A) (body : A → M unit) : M unit :=
  match xs with
  | [] => mret ()
  | x :: rest => _ ← body x; for_each rest body
  end.

Definition process_sentiment_data (float_str : Q → string)
    (df : loc) (text_column : string)
    (positive_words negative_words : gset string) : M loc :=
  result_df ← df_copy df;
  texts ← df_getitem result_df text_column;
  _ ← df_setitem result_df "sentiment_score"
        ((λ x, VFloat (continuous_sentiment_score float_str x
                         positive_words negative_words)) <$> texts);
  scores ← df_getitem result_df "sentiment_score";
  labels ← lift_res (apply sentiment_label scores);
  _ ← df_setitem result_df "sentiment_label" labels;
  mret result_df.

(** ** Dictionary classifier ([src/streamlit_app.py]) *)

Definition DEFAULT_DICTIONARIES : gmap string (gset string) :=
  {[ "urgency_marketing" :=
       {[ "limited"; "limited time"; "limited run"; "limited edition";
          "order now"; "last chance"; "hurry"; "while supplies last";
          "before they're gone"; "selling out"; "selling fast"; "act now";
          "don't wait"; "today only"; "expires soon"; "final hours";
          "almost gone" ]};
     "exclusive_marketing" :=
       {[ "exclusive"; "exclusively"; "exclusive offer"; "exclusive deal";
          "members only"; "vip"; "special access"; "invitation only";
          "premium"; "privileged"; "limited access"; "select customers";
          "insider"; "private sale"; "early access" ]} ]}.

(** One entry of [results]: the dict with keys ['count'], ['matches'] and
    ['present']. *)
Record match_result := {
  count : Z;
  matches : list string;
  present : bool
}.

(** The inner loop: the terms of one dictionary, in iteration order, that
    occur in [text_lower] once lowercased themselves. *)
Definition matching_terms (text_lower : string) (terms : gset string)
  : list string :=
  filter (λ term, contains (lower term) text_lower = true) (elements terms).

Definition result_of (matches : list string) : match_result :=
  {| count := Z.of_nat (length matches);
     matches := matches;
     present := (Z.of_nat (length matches) >? 0)%Z |}.

(** [text.lower()]: a method of [str] only. *)
Definition text_lower_of (text : value) : res string :=
  match text with
  | VStr s => Ok (lower s)
  | _ => Raise AttributeError
  end.

Definition classify_text (text : value)
    (dictionaries : gmap string (gset string))
  : res (gmap string match_result) :=
  if isna text then Ok ∅
  else
    text_lower ← text_lower_of text;
    Ok (map_fold
          (λ dict_name terms results,
             <[dict_name := result_of (matching_terms text_lower terms)]>
               results)
          ∅ dictionaries).

(** The three reads of one classification in [process_dataframe]:
    [x.get(dict_name, {}).get(key, default)]. *)
Definition get_count (dict_name : string) (x : gmap string match_result) : Z :=
  from_option count 0%Z (x !! dict_name).
Definition get_present (dict_name : string) (x : gmap string match_result)
  : bool :=
  from_option present false (x !! dict_name).
Definition get_matches (dict_name : string) (x : gmap string match_result)
  : list string :=
  from_option matches [] (x !! dict_name).

Definition process_dataframe (df : loc) (text_column : string)
    (dictionaries : gmap string (gset string)) : M loc :=
  texts ← df_getitem df text_column;
  classifications ← lift_res (apply (λ x, classify_text x dictionaries) texts);
  df_results ← df_copy df;
  _ ← for_each (map_to_list dictionaries).*1 (λ dict_name,
        _ ← df_setitem df_results (dict_name +:+ "_count")
              ((λ x, VInt (get_count dict_name x)) <$> classifications);
        _ ← df_setitem df_results (dict_name +:+ "_present")
              ((λ x, VBool (get_present dict_name x)) <$> classifications);
        df_setitem df_results (dict_name +:+ "_matches")
          ((λ x, VStr (join ", " (get_matches dict_name x)))
             <$> classifications));
  mret df_results.

(** The dictionary-building statements of [main]:
    [set([term.strip() for term in text.split('\n') if term.strip()])]. *)
Definition terms_of_text (text : string) : gset string :=
  list_to_set (strip <$> filter (λ term, strip term ≠ "") (split_on "010" text)).

(** The "Update Dictionary" button. *)
Definition update_dictionary (dictionaries : gmap string (gset string))
    (selected_dict edited_terms : string) : gmap string (gset string) :=
  <[selected_dict := terms_of_text edited_terms]> dictionaries.

(** The "Add Dictionary" button: nothing happens unless both inputs are
    non-empty. *)
Definition add_dictionary (dictionaries : gmap string (gset string))
    (new_dict_name new_dict_terms : string) : gmap string (gset string) :=
  if negb (bool_decide (new_dict_name = ""))
     && negb (bool_decide (new_dict_terms = ""))
  then <[new_dict_name := terms_of_text new_dict_terms]> dictionaries
  else dictionaries.

(** ** Vocabulary of the statements *)

(** *** Strings *)

(** The character [c] occurs in [s]. *)
Definition has_char (c : ascii) (s : string) : Prop :=
  ∃ a b, s = a +:+ String c b.

(** Nothing but whitespace (the empty string included). *)
Fixpoint only_space (s : string) : bool :=
  match s with
  | "" => true
  | String c s' => isspace c && only_space s'
  end.

(** [t == t.strip()] and [t == t.lower()] *)
Definition trimmed (t : string) : Prop := strip t = t.
Definition lowercased (t : string) : Prop := lower t = t.

(** What the data model asks of a stored term. *)
Definition clean_term (t : string) : Prop :=
  t ≠ "" ∧ trimmed t ∧ lowercased t.

(** [term] occurs in [text] when case is ignored: some piece of [text]
    lowercases to the lowercased [term]. *)
Definition occurs_in (term text : string) : Prop :=
  ∃ pre piece post,
    text = pre +:+ piece +:+ post ∧ lower piece = lower term.

(** *** Dictionaries *)

Inductive category := Positive | Negative.

Definition tags_of (cat : category) : list string :=
  match cat with
  | Positive => positive_tags
  | Negative => negative_tags
  end.

(** [line_entry line term cat]: the dictionary line [line] files [term]
    under [cat].  A line without a comma files itself as positive; a line
    with one files what stands before the first comma, trimmed, under the
    category its trimmed tag names, and files nothing for any other tag. *)
Inductive line_entry (line : string) : string → category → Prop :=
| entry_default :
    ¬ has_char "," line → line_entry line line Positive
| entry_tagged a b cat :
    line = a +:+ String "," b → ¬ has_char "," a →
    strip b ∈ tags_of cat → line_entry line (strip a) cat.

(** The positive or the negative set of a loaded dictionary. *)
Definition side (cat : category) (d : gset string * gset string)
  : gset string :=
  match cat with
  | Positive => d.1
  | Negative => d.2
  end.

(** Every term of every dictionary of the classifier satisfies [P]. *)
Definition all_terms (P : string → Prop)
    (dictionaries : gmap string (gset string)) : Prop :=
  ∀ dict_name terms t,
    dictionaries !! dict_name = Some terms → t ∈ terms → P t.

(** *** Cells *)

(** A missing cell: [None] or NaN. *)
Definition missing (text : value) : Prop := text = VNone ∨ text = VNaN.

(** Not a string: any other kind of cell, missing or not. *)
Definition non_string (text : value) : Prop := ∀ s, text ≠ VStr s.

(** A missing, empty or whitespace-only text cell. *)
Definition blank (text : value) : Prop :=
  missing text ∨ ∃ s, text = VStr s ∧ only_space s = true.

(** A cell [classify_text] accepts: a string or a missing value. *)
Definition text_or_missing (x : value) : Prop :=
  missing x ∨ ∃ s, x = VStr s.

(** The label the lambda of [process_sentiment_data] gives a float. *)
Definition label_of_score (q : Q) : string :=
  if Qltb (1 # 10) q then "Positive"
  else if Qltb q (- (1 # 10)) then "Negative" else "Neutral".

(** [l] is the label the thresholds give the score [q]: "Positive" exactly
    above 1/10, "Negative" exactly below -1/10, "Neutral" exactly between. *)
Definition label_for (q : Q) (l : string) : Prop :=
  (l = "Positive" ↔ (1 # 10 < q)%Q)
  ∧ (l = "Negative" ↔ (q < - (1 # 10))%Q)
  ∧ (l = "Neutral" ↔ ¬ (1 # 10 < q)%Q ∧ ¬ (q < - (1 # 10))%Q).

(** *** Tables *)

(** The three columns [process_dataframe] assigns for one dictionary. *)
Definition add_dict_columns (classifications : list (gmap string match_result))
    (cols : list (string * list value)) (dict_name : string)
  : list (string * list value) :=
  col_set (dict_name +:+ "_matches")
    ((λ x, VStr (join ", " (get_matches dict_name x))) <$> classifications)
    (col_set (dict_name +:+ "_present")
       ((λ x, VBool (get_present dict_name x)) <$> classifications)
       (col_set (dict_name +:+ "_count")
          ((λ x, VInt (get_count dict_name x)) <$> classifications) cols)).

(** The names of the columns each batch function assigns. *)
Definition scorer_columns (name : string) : Prop :=
  name ∈ ["sentiment_score"; "sentiment_label"].

Definition classifier_columns (dictionaries : gmap string (gset string))
    (name : string) : Prop :=
  ∃ dict_name,
    dict_name ∈ dom dictionaries
    ∧ name ∈ [dict_name +:+ "_count"; dict_name +:+ "_present";
              dict_name +:+ "_matches"].

(** Every column is as long as the index. *)
Definition wf_frame (t : DataFrame) : Prop :=
  Forall (λ c, length c.2 = df_index t) (df_columns t).

(** [t'] has the rows of [t], the columns of [t] first and in their order,
    and the cells of [t] in every column whose name is not [derived]. *)
Definition frame_ok (derived : string → Prop) (t t' : DataFrame) : Prop :=
  df_index t' = df_index t
  ∧ (df_columns t).*1 `prefix_of` (df_columns t').*1
  ∧ ∀ name, ¬ derived name →
            col_get name (df_columns t') = col_get name (df_columns t).

(** Every column of [t] is, cell for cell, a column of [t']. *)
Definition keeps_all_columns (t t' : DataFrame) : Prop :=
  ∀ name series, col_get name (df_columns t) = Some series →
                 col_get name (df_columns t') = Some series.

(** A small table for the worked instances. *)
Definition example_texts : list value := [VStr "Good bad BAD"; VNaN].
Definition example_table : DataFrame :=
  {| df_index := 2;
     df_columns := [("id", [VInt 1; VInt 2]); ("text", example_texts)] |}.

(** A table that already has a column named like a derived one, as a saved
    result that is analysed again has. *)
Definition rescored_table : DataFrame :=
  {| df_index := 1;
     df_columns := [("text", [VStr "good"]);
                    ("sentiment_score", [VStr "n/a"])] |}.

(** ** The rest of [main] in both pages *)

(** [terms_text = '\n'.join(current_terms)] with
    [current_terms = list(dictionaries[selected_dict])]: what the editor of
    the classifier shows for a dictionary. *)
Definition terms_text (terms : gset string) : string :=
  join LF (elements terms).

(** [cell == s] for a string [s]: true on that very string only. *)
Definition cell_is (s : string) (x : value) : bool :=
  match x with
  | VStr s' => bool_decide (s' = s)
  | _ => false
  end.

(** [(series == s).sum()]: the number of cells equal to [s]. *)
Definition eq_sum (series : list value) (s : string) : Z :=
  Z.of_nat (length (filter (λ x, cell_is s x = true) series)).

(** [series[mask]]: the entries where the mask is true. *)
Fixpoint mask_select {A : Type} (mask : list bool) (series : list A) : list A :=
  match mask, series with
  | b :: mask', x :: series' =>
      if b then x :: mask_select mask' series' else mask_select mask' series'
  | _, _ => []
  end.

(** [df[mask]]: the rows where the mask is true, in every column. *)
Definition df_mask (t : DataFrame) (mask : list bool) : DataFrame :=
  {| df_index := length (mask_select mask (replicate (df_index t) ()));
     df_columns := (λ c, (c.1, mask_select mask c.2)) <$> df_columns t |}.

(** The "Filter results" box of the sentiment page:
    [result_df[result_df['sentiment_label'] == filter_option]], or the table
    itself for "All". *)
Definition filter_results (result_df : DataFrame) (filter_option : string)
  : res DataFrame :=
  if bool_decide (filter_option ≠ "All") then
    labels ← from_option Ok (Raise KeyError)
                (col_get "sentiment_label" (df_columns result_df));
    Ok (df_mask result_df (cell_is filter_option <$> labels))
  else Ok result_df.

(** [color_sentiment(val)] of the sentiment page. *)
Definition color_sentiment (val : value) : res string :=
  above ← py_gt val (1 # 10);
  if (above : bool) then Ok "background-color: #d4edda"
  else
    below ← py_lt val (- (1 # 10));
    if (below : bool) then Ok "background-color: #f8d7da"
    else Ok "background-color: #fff3cd".

(** [series.mean()] of a float64 series without NaN, as the score column is:
    the sum over the length, NaN when the series is empty. *)
Definition mean (series : list Q) : value :=
  match series with
  | [] => VNaN
  | _ => VFloat (foldr Qplus 0%Q series / inject_Z (Z.of_nat (length series)))
  end.


(** *** Further vocabulary *)

(** Some character of [s] is whitespace. *)
Fixpoint has_space (s : string) : bool :=
  match s with
  | "" => false
  | String c s' => isspace c || has_space s'
  end.

(** The tokens of a cell, as the scorer sees them. *)
Definition tokens (float_str : Q → string) (text : value) : list string :=
  split (lower (py_str float_str text)).


(** The column names of a table are pairwise distinct, as they are in any
    table [pd.read_csv] returns.  With a repeated name [df[name]] is a
    DataFrame, not a series, which the model of columns does not cover. *)
Definition distinct_columns (t : DataFrame) : Prop :=
  NoDup (df_columns t).*1.

(** * Properties *)

Example split_example : split "  good  bad" = ["good"; "bad"].
Proof. reflexivity. Qed.

Example load_example :
  load_dictionary_from_text
    ("great,positive" +:+ LF +:+ "meh" +:+ LF +:+ "  " +:+ LF
       +:+ " Awful , NEG " +:+ LF +:+ "x,maybe")
  = ({["great"; "meh"]}, {["awful"]}).
Proof. vm_compute. reflexivity. Qed.

(** ** Strings *)

Lemma isspace_lower_char c : isspace (lower_char c) = isspace c.
Proof. by destruct c as [[] [] [] [] [] [] [] []]. Qed.

Lemma lower_char_idemp c : lower_char (lower_char c) = lower_char c.
Proof. by destruct c as [[] [] [] [] [] [] [] []]. Qed.

Lemma lower_idemp s : lower (lower s) = lower s.
Proof. induction s as [|c s IH]; simpl; [done|]. by rewrite lower_char_idemp, IH. Qed.

Lemma lower_app s1 s2 : lower (s1 +:+ s2) = lower s1 +:+ lower s2.
Proof. induction s1 as [|c s1 IH]; simpl; [done|]. by rewrite IH. Qed.

Lemma lower_empty_inv s : lower s = "" → s = "".
Proof. by destruct s. Qed.

(** Lowercasing works character by character, so a cut of [lower s] is the
    image of a cut of [s]. *)
Lemma lower_app_inv s a b :
  lower s = a +:+ b → ∃ s1 s2, s = s1 +:+ s2 ∧ lower s1 = a ∧ lower s2 = b.
Proof.
  revert s. induction a as [|c a IH]; intros s H.
  - by exists "", s.
  - change (String c a +:+ b) with (String c (a +:+ b)) in H.
    destruct s as [|c' s]; simplify_eq/=.
    destruct (IH s) as (s1 & s2 & -> & <- & <-); [done|].
    by exists (String c' s1), s2.
Qed.

Lemma lower_lstrip s : lower (lstrip s) = lstrip (lower s).
Proof.
  induction s as [|c s IH]; simpl; [done|].
  rewrite isspace_lower_char. by destruct (isspace c).
Qed.

Lemma lower_rstrip s : lower (rstrip s) = rstrip (lower s).
Proof.
  induction s as [|c s IH]; simpl; [done|].
  rewrite <-IH, isspace_lower_char.
  destruct (rstrip s) as [|c' r]; simpl; [by destruct (isspace c)|done].
Qed.

Lemma lower_strip s : lower (strip s) = strip (lower s).
Proof. unfold strip. by rewrite lower_lstrip, lower_rstrip. Qed.

Lemma lstrip_idemp s : lstrip (lstrip s) = lstrip s.
Proof.
  induction s as [|c s IH]; simpl; [done|].
  destruct (isspace c) eqn:Hc; [done|]. simpl. by rewrite Hc.
Qed.

Lemma rstrip_idemp s : rstrip (rstrip s) = rstrip s.
Proof.
  induction s as [|c s IH]; simpl; [done|].
  destruct (rstrip s) as [|c' r] eqn:Hr.
  - destruct (isspace c) eqn:Hc; simpl; [done|]. by rewrite Hc.
  - change (rstrip (String c (String c' r))) with
      (match rstrip (String c' r) with
       | "" => if isspace c then "" else String c ""
       | r' => String c r'
       end).
    by rewrite IH.
Qed.

Lemma rstrip_lstrip s : rstrip (lstrip s) = lstrip (rstrip s).
Proof.
  induction s as [|c s IH]; simpl; [done|].
  destruct (isspace c) eqn:Hc.
  - rewrite IH. destruct (rstrip s) as [|c' r]; simpl; [done|]. by rewrite Hc.
  - simpl. destruct (rstrip s); simpl; by rewrite Hc.
Qed.

Lemma strip_idemp s : strip (strip s) = strip s.
Proof.
  unfold strip. by rewrite rstrip_lstrip, rstrip_idemp, lstrip_idemp.
Qed.

Lemma app_cons c a b : String c a +:+ b = String c (a +:+ b).
Proof. done. Qed.

Lemma startswith_spec p s : startswith p s = true ↔ ∃ post, s = p +:+ post.
Proof.
  revert s. induction p as [|a p IH]; intros [|b s]; simpl.
  - split; [by exists ""|done].
  - split; [by eexists|done].
  - split; [done|by intros [post ?]].
  - rewrite andb_true_iff, IH. split.
    + intros [->%Ascii.eqb_eq [post ->]]. by exists post.
    + intros [post H]. rewrite app_cons in H. simplify_eq.
      split; [apply Ascii.eqb_refl|by exists post].
Qed.

(** [sub in s] holds exactly when [s] is some text, then [sub], then some
    text. *)
Lemma contains_spec sub s :
  contains sub s = true ↔ ∃ pre post, s = pre +:+ sub +:+ post.
Proof.
  induction s as [|c s IH].
  - simpl. rewrite orb_false_r, startswith_spec. split.
    + intros [post ->]. by exists "", post.
    + intros ([|? pre] & post & H); [by exists post|done].
  - cbn [contains]. rewrite orb_true_iff, startswith_spec, IH. split.
    + intros [[post ->]|(pre & post & ->)].
      * by exists "", post.
      * by exists (String c pre), post.
    + intros ([|c' pre] & post & H).
      * left. by exists post.
      * right. rewrite app_cons in H. simplify_eq. by exists pre, post.
Qed.

Lemma contains_char c s : contains (String c "") s = true ↔ has_char c s.
Proof. rewrite contains_spec. unfold has_char. naive_solver. Qed.

Lemma has_char_cons c c' s :
  has_char c (String c' s) ↔ c' = c ∨ has_char c s.
Proof.
  split.
  - intros ([|x a] & b & H); [left|right].
    + change (String c' s = String c b) in H. by simplify_eq.
    + rewrite app_cons in H. simplify_eq. by exists a, b.
  - intros [->|(a & b & ->)]; [by exists "", s|by exists (String c' a), b].
Qed.

Lemma has_char_empty c : ¬ has_char c "".
Proof. by intros ([|??] & ? & ?). Qed.

(** [s.split(sep, 1)] cuts at the first occurrence of [sep]. *)
Lemma split1_spec sep s :
  match split1 sep s with
  | (a, Some b) => s = a +:+ String sep b ∧ ¬ has_char sep a
  | (a, None) => a = s ∧ ¬ has_char sep s
  end.
Proof.
  induction s as [|c s IH]; simpl.
  - split; [done|apply has_char_empty].
  - destruct (Ascii.eqb_spec c sep) as [->|Hne].
    + split; [done|apply has_char_empty].
    + destruct (split1 sep s) as [a [b|]]; destruct IH as [IH1 IH2].
      * split; [by rewrite app_cons, <-IH1|]. rewrite has_char_cons. tauto.
      * split; [by rewrite IH1|]. rewrite has_char_cons. tauto.
Qed.

Lemma split1_cut sep a b :
  ¬ has_char sep a → split1 sep (a +:+ String sep b) = (a, Some b).
Proof.
  induction a as [|c a IH]; intros Hno.
  - simpl. by rewrite Ascii.eqb_refl.
  - rewrite app_cons. simpl. rewrite has_char_cons in Hno.
    destruct (Ascii.eqb_spec c sep) as [->|Hne]; [tauto|].
    rewrite IH by tauto. done.
Qed.

Lemma split1_whole sep s : ¬ has_char sep s → split1 sep s = (s, None).
Proof.
  intros Hno. pose proof (split1_spec sep s) as H.
  destruct (split1 sep s) as [a [b|]].
  - destruct H as [-> _]. destruct Hno. by exists a, b.
  - by destruct H as [-> _].
Qed.

(** When [',' in line] holds, [line.split(',', 1)] has two pieces. *)
Lemma split1_contains sep s :
  contains (String sep "") s = true ↔ ∃ a b, split1 sep s = (a, Some b).
Proof.
  rewrite contains_char. pose proof (split1_spec sep s) as H.
  destruct (split1 sep s) as [a [b|]].
  - destruct H as [-> _]. split; [by eexists _, _|]. intros _. by exists a, b.
  - destruct H as [_ H]. split; [done|]. by intros (? & ? & ?).
Qed.

Lemma only_space_lower s : only_space (lower s) = only_space s.
Proof.
  induction s as [|c s IH]; simpl; [done|]. by rewrite isspace_lower_char, IH.
Qed.

Lemma split_only_space s : only_space s = true → split s = [].
Proof.
  unfold split. induction s as [|c s IH]; simpl; [done|].
  intros [-> ?]%andb_true_iff. simpl. auto.
Qed.

(** ** The sentiment dictionary *)

Lemma tags_disjoint tag : tag ∈ positive_tags → tag ∉ negative_tags.
Proof.
  unfold positive_tags, negative_tags. rewrite !elem_of_cons, !elem_of_nil.
  naive_solver.
Qed.

Lemma line_entry_default_inv line t cat :
  ¬ has_char "," line → line_entry line t cat → t = line ∧ cat = Positive.
Proof.
  intros Hno [|a b cat' -> _ _]; [done|]. destruct Hno. by exists a, b.
Qed.

Lemma line_entry_tagged_inv a b t cat :
  ¬ has_char "," a → line_entry (a +:+ String "," b) t cat →
  t = strip a ∧ strip b ∈ tags_of cat.
Proof.
  intros Hno [Hbare|a' b' cat' Heq Hno' Htag].
  - destruct Hbare. by exists a, b.
  - pose proof (split1_cut "," a b Hno) as H1.
    rewrite Heq, (split1_cut "," a' b' Hno') in H1. by simplify_eq.
Qed.

(** One turn of the loop adds exactly what the line files. *)
Lemma add_line_spec positive_words negative_words line t :
  (t ∈ (add_line (positive_words, negative_words) line).1
     ↔ t ∈ positive_words ∨ line_entry line t Positive)
  ∧ (t ∈ (add_line (positive_words, negative_words) line).2
     ↔ t ∈ negative_words ∨ line_entry line t Negative).
Proof.
  unfold add_line. pose proof (split1_spec "," line) as Hs.
  destruct (contains "," line) eqn:Hc.
  - apply split1_contains in Hc as (a & b & Hab). rewrite Hab in Hs |- *.
    destruct Hs as [-> Hno].
    assert (∀ cat, line_entry (a +:+ String "," b) t cat
                   ↔ t = strip a ∧ strip b ∈ tags_of cat) as Hent.
    { intros cat. split; [by apply line_entry_tagged_inv|].
      intros [-> ?]. by eapply entry_tagged. }
    rewrite !Hent. simpl.
    repeat case_bool_decide; simpl; rewrite ?elem_of_union, ?elem_of_singleton;
      try (pose proof (tags_disjoint (strip b)) as Hd); naive_solver.
  - assert (¬ has_char "," line) as Hno.
    { rewrite <-contains_char. by rewrite Hc. }
    simpl. rewrite elem_of_union, elem_of_singleton. split.
    + split; [intros [->|?]; [right; by constructor|by left]|].
      intros [?|[-> _]%line_entry_default_inv]; auto.
    + split; [by left|]. by intros [?|[_ ?]%line_entry_default_inv].
Qed.

Lemma foldl_add_line_spec lines positive_words negative_words t :
  (t ∈ (foldl add_line (positive_words, negative_words) lines).1
     ↔ t ∈ positive_words ∨ ∃ line, line ∈ lines ∧ line_entry line t Positive)
  ∧ (t ∈ (foldl add_line (positive_words, negative_words) lines).2
     ↔ t ∈ negative_words ∨ ∃ line, line ∈ lines ∧ line_entry line t Negative).
Proof.
  revert positive_words negative_words.
  induction lines as [|line lines IH]; intros P N; cbn [foldl].
  - split; (split; [by left|]); intros [?|(? & []%elem_of_nil & _)]; done.
  - destruct (add_line (P, N) line) as [P' N'] eqn:Hstep.
    pose proof (add_line_spec P N line t) as [H1 H2]. rewrite Hstep in H1, H2.
    simpl in H1, H2. destruct (IH P' N') as [IH1 IH2].
    rewrite IH1, IH2, H1, H2. setoid_rewrite elem_of_cons. naive_solver.
Qed.

(** The lines the loop sees: the non-blank raw lines, trimmed, then
    lowercased. *)
Lemma elem_of_dict_lines dict_text line :
  line ∈ dict_lines dict_text
  ↔ ∃ raw, raw ∈ split_on "010" dict_text
           ∧ strip raw ≠ "" ∧ line = lower (strip raw).
Proof.
  unfold dict_lines. rewrite list_elem_of_fmap.
  setoid_rewrite list_elem_of_filter. naive_solver.
Qed.

Lemma load_dictionary_spec dict_text t :
  (t ∈ (load_dictionary_from_text dict_text).1
     ↔ ∃ line, line ∈ dict_lines dict_text ∧ line_entry line t Positive)
  ∧ (t ∈ (load_dictionary_from_text dict_text).2
     ↔ ∃ line, line ∈ dict_lines dict_text ∧ line_entry line t Negative).
Proof.
  unfold load_dictionary_from_text.
  destruct (foldl_add_line_spec (dict_lines dict_text) ∅ ∅ t) as [H1 H2].
  rewrite H1, H2. set_solver.
Qed.

(** C4. Parsing a sentiment dictionary: a term is in the positive
    (negative) set exactly when some line files it there, where the lines
    are the non-blank raw lines, trimmed and lowercased; a line without a
    comma files itself as positive, a line with one files the trimmed part
    before its first comma under the category its tag names (positive, pos,
    1; negative, neg, 0, -1) and files nothing under any other tag.  The four
    lines of the worked example behave as stated. *)
Theorem C4_load_dictionary_lines :
  (∀ dict_text t cat,
     t ∈ side cat (load_dictionary_from_text dict_text)
     ↔ ∃ line, line ∈ dict_lines dict_text ∧ line_entry line t cat)
  ∧ (∀ dict_text line,
       line ∈ dict_lines dict_text
       ↔ ∃ raw, raw ∈ split_on "010" dict_text
                ∧ strip raw ≠ "" ∧ line = lower (strip raw))
  ∧ load_dictionary_from_text "great,positive" = ({["great"]}, ∅)
  ∧ load_dictionary_from_text "meh" = ({["meh"]}, ∅)
  ∧ load_dictionary_from_text "awful,negative" = (∅, {["awful"]})
  ∧ load_dictionary_from_text "x,maybe" = (∅, ∅)
  ∧ load_dictionary_from_text (LF +:+ "  " +:+ LF) = (∅, ∅)
  ∧ load_dictionary_from_text "  Good , POS " = ({["good"]}, ∅).
Proof.
  split_and!.
  - intros dict_text t [|]; apply load_dictionary_spec.
  - apply elem_of_dict_lines.
  - vm_compute; reflexivity.
  - vm_compute; reflexivity.
  - vm_compute; reflexivity.
  - vm_compute; reflexivity.
  - vm_compute; reflexivity.
  - vm_compute; reflexivity.
Qed.

(** C7, as stated, fails: a term listed once as positive and once as
    negative ends up in both sets. *)
Lemma C7_counterexample :
  ¬ (load_dictionary_from_text ("x,pos" +:+ LF +:+ "x,neg")).1
    ## (load_dictionary_from_text ("x,pos" +:+ LF +:+ "x,neg")).2.
Proof.
  assert (load_dictionary_from_text ("x,pos" +:+ LF +:+ "x,neg")
          = ({["x"]}, {["x"]})) as -> by (vm_compute; reflexivity).
  simpl. set_solver.
Qed.

(** C7, amended. The two sets of one load are disjoint exactly when no term
    is filed as positive by one line and as negative by another. *)
Theorem C7_disjoint_unless_filed_twice dict_text :
  (load_dictionary_from_text dict_text).1
    ## (load_dictionary_from_text dict_text).2
  ↔ ¬ ∃ t line1 line2,
        line1 ∈ dict_lines dict_text ∧ line2 ∈ dict_lines dict_text
        ∧ line_entry line1 t Positive ∧ line_entry line2 t Negative.
Proof.
  rewrite elem_of_disjoint. split.
  - intros Hdisj (t & l1 & l2 & ? & ? & ? & ?). apply (Hdisj t).
    + apply (load_dictionary_spec dict_text t). eauto.
    + apply (load_dictionary_spec dict_text t). eauto.
  - intros Hno t (l1 & ? & ?)%load_dictionary_spec
      (l2 & ? & ?)%load_dictionary_spec.
    apply Hno. by exists t, l1, l2.
Qed.

(** ** Stored terms *)

Lemma lowercased_prefix a r : lowercased (a +:+ r) → lowercased a.
Proof.
  unfold lowercased. induction a as [|c a IH]; [done|].
  rewrite app_cons. simpl. intros H. simplify_eq. by rewrite H, IH.
Qed.

Lemma dict_line_clean dict_text line :
  line ∈ dict_lines dict_text → clean_term line.
Proof.
  intros (raw & _ & Hne & ->)%elem_of_dict_lines. split_and!.
  - by intros ?%lower_empty_inv.
  - unfold trimmed. by rewrite <-lower_strip, strip_idemp.
  - apply lower_idemp.
Qed.

Lemma loaded_term_trimmed_lowercased dict_text line t cat :
  line ∈ dict_lines dict_text → line_entry line t cat →
  trimmed t ∧ lowercased t
  ∧ (t = "" → ∃ a b, line = a +:+ String "," b ∧ strip a = "").
Proof.
  intros [Hne [Htrim Hlow]]%dict_line_clean [_|a b cat' -> Hno Htag].
  - done.
  - split_and!.
    + apply strip_idemp.
    + unfold lowercased. rewrite lower_strip.
      by rewrite (lowercased_prefix _ _ Hlow).
    + intros Hempty. by exists a, b.
Qed.

Lemma elem_of_terms_of_text text t :
  t ∈ terms_of_text text
  ↔ ∃ raw, raw ∈ split_on "010" text ∧ strip raw ≠ "" ∧ t = strip raw.
Proof.
  unfold terms_of_text. rewrite elem_of_list_to_set, list_elem_of_fmap.
  setoid_rewrite list_elem_of_filter. naive_solver.
Qed.

(** C6, as stated, fails twice: the classifier keeps the casing of an edited
    term, and the sentiment parse files the empty string for a line that
    starts with its comma. *)
Lemma C6_counterexample :
  (update_dictionary ∅ "d" "VIP" !! "d" = Some {["VIP"]}
   ∧ ¬ clean_term "VIP")
  ∧ (load_dictionary_from_text ",pos" = ({[""]}, ∅) ∧ ¬ clean_term "").
Proof.
  split; split.
  - vm_compute; reflexivity.
  - by intros (_ & _ & ?).
  - vm_compute; reflexivity.
  - by intros (? & _).
Qed.

Lemma terms_of_text_ok text t :
  t ∈ terms_of_text text → t ≠ "" ∧ trimmed t.
Proof.
  intros (raw & _ & Hne & ->)%elem_of_terms_of_text.
  split; [done|apply strip_idemp].
Qed.

Lemma insert_terms_ok dictionaries name text :
  all_terms (λ t, t ≠ "" ∧ trimmed t) dictionaries →
  all_terms (λ t, t ≠ "" ∧ trimmed t)
    (<[name := terms_of_text text]> dictionaries).
Proof.
  intros Hok d terms t [[<- <-]|[_ Hd]]%lookup_insert_Some Ht.
  - by apply (terms_of_text_ok text).
  - by apply (Hok d terms).
Qed.

Lemma default_dictionaries_clean : all_terms clean_term DEFAULT_DICTIONARIES.
Proof.
  intros d terms t Hd Ht. unfold DEFAULT_DICTIONARIES in Hd.
  apply lookup_insert_Some in Hd as [[<- <-]|[_ Hd]].
  - set_unfold in Ht. destruct_or!; subst t; by split_and!.
  - apply lookup_singleton_Some in Hd as [<- <-].
    set_unfold in Ht. destruct_or!; subst t; by split_and!.
Qed.

(** C6, amended. A term stored by the sentiment parse is trimmed and
    lowercased, and is empty only when its line has nothing but whitespace
    before the first comma.  A term built by the classifier's "Update
    Dictionary" or "Add Dictionary" is non-empty and trimmed, in the casing
    typed; so if every stored term of the classifier is non-empty and
    trimmed before either button is pressed, it is so afterwards, as it is
    in the built-in dictionaries. *)
Theorem C6_stored_terms :
  (∀ dict_text cat t,
     t ∈ side cat (load_dictionary_from_text dict_text) →
     trimmed t ∧ lowercased t
     ∧ (t = "" → ∃ a b, a +:+ String "," b ∈ dict_lines dict_text
                        ∧ strip a = ""))
  ∧ (∀ text t, t ∈ terms_of_text text → t ≠ "" ∧ trimmed t)
  ∧ (∀ dictionaries selected_dict edited_terms,
       all_terms (λ t, t ≠ "" ∧ trimmed t) dictionaries →
       all_terms (λ t, t ≠ "" ∧ trimmed t)
         (update_dictionary dictionaries selected_dict edited_terms))
  ∧ (∀ dictionaries new_dict_name new_dict_terms,
       all_terms (λ t, t ≠ "" ∧ trimmed t) dictionaries →
       all_terms (λ t, t ≠ "" ∧ trimmed t)
         (add_dictionary dictionaries new_dict_name new_dict_terms))
  ∧ all_terms (λ t, t ≠ "" ∧ trimmed t) DEFAULT_DICTIONARIES.
Proof.
  split_and!.
  - intros dict_text cat t Hin.
    assert (∃ line, line ∈ dict_lines dict_text ∧ line_entry line t cat)
      as (line & Hline & Hent).
    { destruct cat; by apply load_dictionary_spec. }
    destruct (loaded_term_trimmed_lowercased _ _ _ _ Hline Hent)
      as (? & ? & Hempty).
    split_and!; [done..|]. intros (a & b & -> & ?)%Hempty. by exists a, b.
  - apply terms_of_text_ok.
  - intros ds name text Hok. by apply insert_terms_ok.
  - intros ds name text Hok. unfold add_dictionary.
    destruct (_ && _); [by apply insert_terms_ok|done].
  - intros d terms t Hd Ht.
    destruct (default_dictionaries_clean d terms t Hd Ht) as (? & ? & _).
    done.
Qed.

Lemma C6_stored_terms_witness :
  trimmed "awful" ∧ lowercased "awful"
  ∧ ("awful" = "" → ∃ a b, a +:+ String "," b ∈ dict_lines " Awful , NEG "
                            ∧ strip a = "").
Proof.
  apply (proj1 C6_stored_terms " Awful , NEG " Negative "awful").
  vm_compute. set_solver.
Defined.

(** ** The scorer *)

Lemma quotient_bounds (p n : Z) :
  (0 ≤ p)%Z → (0 ≤ n)%Z → (p + n ≠ 0)%Z →
  (inject_Z (p - n) / inject_Z (p + n) == (p - n) # Z.to_pos (p + n))%Q
  ∧ (- (1) <= inject_Z (p - n) / inject_Z (p + n))%Q
  ∧ (inject_Z (p - n) / inject_Z (p + n) <= 1)%Q.
Proof.
  intros Hp Hn Hne.
  assert (inject_Z (p - n) / inject_Z (p + n) == (p - n) # Z.to_pos (p + n))%Q
    as Heq.
  { rewrite (Qmake_Qdiv (p - n) (Z.to_pos (p + n))).
    by rewrite Z2Pos.id by lia. }
  split; [done|]. rewrite Heq. unfold Qle. simpl.
  rewrite Z2Pos.id by lia. lia.
Qed.

Section ScorerFacts.

Variable float_str : Q → string.

#[local] Abbreviation score := (continuous_sentiment_score float_str).

Lemma score_str text positive_words negative_words :
  let words := split (lower text) in
  let p := pos_count words positive_words in
  let n := neg_count words negative_words in
  score (VStr text) positive_words negative_words
  = if (p + n =? 0)%Z then 0%Q else (inject_Z (p - n) / inject_Z (p + n))%Q.
Proof.
  intros words p n. unfold continuous_sentiment_score. simpl.
  fold words. fold p. fold n. rewrite orb_false_r, negb_involutive.
  case_bool_decide as Hempty.
  - subst text. by vm_compute.
  - case_bool_decide as Hwords; [|done].
    subst p n. by rewrite Hwords.
Qed.

Lemma score_bounds text positive_words negative_words :
  (- (1) <= score text positive_words negative_words)%Q
  ∧ (score text positive_words negative_words <= 1)%Q.
Proof.
  unfold continuous_sentiment_score.
  destruct (_ || _); [done|]. case_bool_decide; [done|].
  destruct (_ =? _)%Z eqn:Hz; [done|]. apply Z.eqb_neq in Hz.
  apply quotient_bounds in Hz; [tauto|unfold pos_count; lia|unfold neg_count; lia].
Qed.

(** A missing, empty or whitespace-only text scores exactly [0]. *)
Lemma score_blank text positive_words negative_words :
  blank text →
  score text positive_words negative_words = 0%Q.
Proof.
  intros [[->| ->]|(s & -> & Hs)]; [done..|].
  rewrite score_str. simpl.
  by rewrite (split_only_space (lower s)) by by rewrite only_space_lower.
Qed.

(** C1. For a text, with [p] and [n] the numbers of its lowercased,
    whitespace-separated tokens found in the positive and in the negative
    set: the score is 0 when [p + n = 0] and [(p - n) / (p + n)] otherwise;
    the score of any cell lies in [-1, 1]; and "good bad bad" scores -1/3
    against positive {good, great} and negative {bad}. *)
Theorem C1_score_formula_and_range :
  (∀ (text : string) (positive_words negative_words : gset string),
     let words := split (lower text) in
     let p := Z.of_nat (length (filter (λ w, w ∈ positive_words) words)) in
     let n := Z.of_nat (length (filter (λ w, w ∈ negative_words) words)) in
     ((p + n = 0)%Z →
      (score (VStr text) positive_words negative_words == 0)%Q)
     ∧ ((p + n ≠ 0)%Z →
        (score (VStr text) positive_words negative_words
         == (p - n) # Z.to_pos (p + n))%Q))
  ∧ (∀ (text : value) (positive_words negative_words : gset string),
       (- (1) <= score text positive_words negative_words)%Q
       ∧ (score text positive_words negative_words <= 1)%Q)
  ∧ (score (VStr "good bad bad") {["good"; "great"]} {["bad"]} == - (1 # 3))%Q.
Proof.
  split_and!.
  - intros text P N words p n. rewrite score_str.
    fold words. change (pos_count words P) with p.
    change (neg_count words N) with n. split.
    + intros ->. done.
    + intros Hne. rewrite (proj2 (Z.eqb_neq _ _) Hne).
      apply quotient_bounds; [unfold p; lia|unfold n; lia|done].
  - apply score_bounds.
  - by vm_compute.
Qed.

End ScorerFacts.

Lemma C1_score_formula_and_range_witness :
  (continuous_sentiment_score (λ _, "") (VStr "Great  good BAD") {["good"; "great"]}
     {["bad"]} == 1 # 3)%Q.
Proof.
  etrans.
  - apply (proj2 (proj1 (C1_score_formula_and_range (λ _, ""))
                   "Great  good BAD" {["good"; "great"]} {["bad"]})).
    vm_compute. discriminate.
  - by vm_compute.
Defined.

(** ** Columns and the store *)

Lemma col_get_set_eq name series cols :
  col_get name (col_set name series cols) = Some series.
Proof.
  induction cols as [|[n old] cols IH]; simpl.
  - by rewrite decide_True.
  - destruct (decide (n = name)) as [->|Hne]; simpl.
    + by rewrite decide_True.
    + by rewrite decide_False.
Qed.

Lemma col_get_set_ne name name' series cols :
  name ≠ name' →
  col_get name' (col_set name series cols) = col_get name' cols.
Proof.
  intros Hne. induction cols as [|[n old] cols IH]; simpl.
  - by rewrite decide_False.
  - destruct (decide (n = name)) as [->|Hn]; simpl.
    + by rewrite !decide_False.
    + by rewrite IH.
Qed.

Lemma col_set_names name series cols :
  (col_set name series cols).*1
  = (cols.*1 ++ (if decide (name ∈ cols.*1) then [] else [name]))%list.
Proof.
  induction cols as [|[n old] cols IH]; csimpl.
  - destruct (decide (name ∈ [])) as [[]%elem_of_nil|]; done.
  - destruct (decide (n = name)) as [->|Hn]; csimpl.
    + destruct (decide (name ∈ name :: cols.*1)) as [|[]]; [|by left].
      by rewrite app_nil_r.
    + rewrite IH. f_equal. f_equal.
      destruct (decide (name ∈ cols.*1)),
        (decide (name ∈ n :: cols.*1)) as [[?|?]%elem_of_cons|Hno];
        try done.
      destruct Hno. by right.
Qed.

Lemma col_set_prefix name series cols :
  cols.*1 `prefix_of` (col_set name series cols).*1.
Proof. rewrite col_set_names. by eexists. Qed.

Lemma col_set_wf name series n cols :
  length series = n →
  Forall (λ c : string * list value, length c.2 = n) cols →
  Forall (λ c : string * list value, length c.2 = n)
    (col_set name series cols).
Proof.
  intros Hlen. induction 1 as [|[m old] cols Hc Hcols IH]; simpl.
  - by repeat constructor.
  - destruct (decide (m = name)); constructor; done.
Qed.

Lemma col_get_wf name series n cols :
  Forall (λ c : string * list value, length c.2 = n) cols →
  col_get name cols = Some series → length series = n.
Proof.
  induction 1 as [|[m old] cols Hc Hcols IH]; simpl; [done|].
  destruct (decide (m = name)); [by intros [= <-]|done].
Qed.

Lemma bind_run {A B} (m : M A) (f : A → M B) σ :
  (m ≫= f) σ
  = match m σ with
    | (Ok a, σ') => f a σ'
    | (Raise e, σ') => (Raise e, σ')
    end.
Proof. done. Qed.

Lemma df_read_run σ df t : σ !! df = Some t → df_read df σ = (Ok t, σ).
Proof. unfold df_read. by intros ->. Qed.

Lemma df_copy_run σ df t :
  σ !! df = Some t →
  df_copy df σ = (Ok (fresh (dom σ)), <[fresh (dom σ) := t]> σ).
Proof. intros H. unfold df_copy. by rewrite bind_run, (df_read_run _ _ t). Qed.

Lemma df_getitem_run σ df t name :
  σ !! df = Some t →
  df_getitem df name σ
  = (from_option Ok (Raise KeyError) (col_get name (df_columns t)), σ).
Proof. intros H. unfold df_getitem. by rewrite bind_run, (df_read_run _ _ t). Qed.

Lemma df_setitem_run σ df t name series :
  σ !! df = Some t →
  df_setitem df name series σ
  = (Ok (), <[df := {| df_index := df_index t;
                       df_columns := col_set name series (df_columns t) |}]> σ).
Proof. intros H. unfold df_setitem. by rewrite bind_run, (df_read_run _ _ t). Qed.

Lemma sentiment_label_float q :
  sentiment_label (VFloat q) = Ok (VStr (label_of_score q)).
Proof.
  unfold sentiment_label, label_of_score, py_gt, py_lt. simpl.
  by repeat destruct (Qltb _ _).
Qed.

Lemma apply_sentiment_label {A} (f : A → Q) (xs : list A) :
  apply sentiment_label ((λ x, VFloat (f x)) <$> xs)
  = Ok ((λ x, VStr (label_of_score (f x))) <$> xs).
Proof.
  induction xs as [|x xs IH]; [done|].
  csimpl. by rewrite sentiment_label_float, IH.
Qed.

(** What a run of [process_sentiment_data] returns and leaves in the store. *)
Lemma process_sentiment_data_run float_str σ df t text_column
    positive_words negative_words :
  σ !! df = Some t →
  process_sentiment_data float_str df text_column
    positive_words negative_words σ
  = let out := fresh (dom σ) in
    let score x :=
      continuous_sentiment_score float_str x positive_words negative_words in
    match col_get text_column (df_columns t) with
    | None => (Raise KeyError, <[out := t]> σ)
    | Some texts =>
        (Ok out,
         <[out := {| df_index := df_index t;
                     df_columns :=
                       col_set "sentiment_label"
                         ((λ x, VStr (label_of_score (score x))) <$> texts)
                         (col_set "sentiment_score"
                            ((λ x, VFloat (score x)) <$> texts)
                            (df_columns t)) |}]> σ)
    end.
Proof.
  intros Hdf. unfold process_sentiment_data.
  rewrite bind_run, (df_copy_run _ _ t) by done.
  set (out := fresh (dom σ)).
  rewrite bind_run, (df_getitem_run _ _ t) by apply lookup_insert_eq.
  destruct (col_get text_column (df_columns t)) as [texts|]; [|done].
  cbn [from_option].
  rewrite bind_run, (df_setitem_run _ _ t) by apply lookup_insert_eq.
  rewrite insert_insert_eq. cbn [df_index df_columns].
  erewrite bind_run, df_getitem_run by apply lookup_insert_eq.
  cbn [df_columns]. rewrite col_get_set_eq. cbn [from_option].
  rewrite bind_run. unfold lift_res.
  rewrite (apply_sentiment_label
             (λ x, continuous_sentiment_score float_str x
                     positive_words negative_words)).
  erewrite bind_run, df_setitem_run by apply lookup_insert_eq.
  rewrite insert_insert_eq. cbn [df_index df_columns]. reflexivity.
Qed.

Lemma Qltb_lt x y : Qltb x y = true ↔ (x < y)%Q.
Proof.
  unfold Qltb. rewrite negb_true_iff, <-not_true_iff_false, Qle_bool_iff.
  split; [apply Qnot_le_lt|apply Qlt_not_le].
Qed.

Lemma label_of_score_spec q : label_for q (label_of_score q).
Proof.
  unfold label_for, label_of_score.
  destruct (Qltb (1 # 10) q) eqn:Hp.
  - apply Qltb_lt in Hp. split_and!; split; try done; try tauto.
    intros Hn. unfold Qlt in Hp, Hn. simpl in Hp, Hn. lia.
  - assert (¬ (1 # 10 < q)%Q) as Hnp.
    { rewrite <-Qltb_lt. by rewrite Hp. }
    destruct (Qltb q (- (1 # 10))) eqn:Hn.
    + apply Qltb_lt in Hn. split_and!; split; try done; tauto.
    + assert (¬ (q < - (1 # 10))%Q) as Hnn.
      { rewrite <-Qltb_lt. by rewrite Hn. }
      split_and!; split; try done; tauto.
Qed.

(** C2. The label of a float score is "Positive" exactly when the score is
    above 1/10, "Negative" exactly when it is below -1/10 and "Neutral"
    otherwise; a missing, empty or whitespace-only text scores 0 and is
    labelled "Neutral"; and in the table [process_sentiment_data] returns,
    every row carries the score of its text cell and the label of that
    score. *)
Theorem C2_label_thresholds (float_str : Q → string) :
  (∀ q, ∃ l, sentiment_label (VFloat q) = Ok (VStr l) ∧ label_for q l)
  ∧ (∀ text positive_words negative_words,
       blank text →
       continuous_sentiment_score float_str text
         positive_words negative_words = 0%Q
       ∧ sentiment_label
           (VFloat (continuous_sentiment_score float_str text
                      positive_words negative_words))
         = Ok (VStr "Neutral"))
  ∧ (∀ (σ : store) df t text_column texts positive_words negative_words,
       σ !! df = Some t →
       col_get text_column (df_columns t) = Some texts →
       ∃ out σ' t' scores labels,
         process_sentiment_data float_str df text_column
           positive_words negative_words σ = (Ok out, σ')
         ∧ σ' !! out = Some t'
         ∧ col_get "sentiment_score" (df_columns t') = Some scores
         ∧ col_get "sentiment_label" (df_columns t') = Some labels
         ∧ length scores = length texts ∧ length labels = length texts
         ∧ ∀ i x, texts !! i = Some x →
             ∃ l,
               scores !! i
               = Some (VFloat (continuous_sentiment_score float_str x
                                 positive_words negative_words))
               ∧ labels !! i = Some (VStr l)
               ∧ label_for (continuous_sentiment_score float_str x
                              positive_words negative_words) l).
Proof.
  split_and!.
  - intros q. exists (label_of_score q).
    split; [apply sentiment_label_float|apply label_of_score_spec].
  - intros text P N Hblank. by rewrite score_blank.
  - intros σ df t text_column texts P N Hdf Hcol.
    rewrite (process_sentiment_data_run _ _ _ t) by done. cbn zeta.
    rewrite Hcol. eexists _, _, _, _, _. split_and!.
    + done.
    + apply lookup_insert_eq.
    + cbn [df_columns]. rewrite col_get_set_ne by done. apply col_get_set_eq.
    + cbn [df_columns]. apply col_get_set_eq.
    + apply length_fmap.
    + apply length_fmap.
    + intros i x Hx. eexists. rewrite !list_lookup_fmap, Hx.
      split_and!; [done..|]. apply label_of_score_spec.
Qed.

Lemma C2_label_thresholds_witness :
  ∃ out σ' t' scores labels,
    process_sentiment_data (λ _, "") 1%positive "text" {["good"]} {["bad"]}
      {[1%positive := example_table]}
    = (Ok out, σ')
    ∧ σ' !! out = Some t'
    ∧ col_get "sentiment_score" (df_columns t') = Some scores
    ∧ col_get "sentiment_label" (df_columns t') = Some labels
    ∧ length scores = length example_texts
    ∧ length labels = length example_texts
    ∧ ∀ i x, example_texts !! i = Some x →
        ∃ l,
          scores !! i
          = Some (VFloat (continuous_sentiment_score (λ _, "") x
                            {["good"]} {["bad"]}))
          ∧ labels !! i = Some (VStr l)
          ∧ label_for (continuous_sentiment_score (λ _, "") x
                         {["good"]} {["bad"]}) l.
Proof.
  apply (proj2 (proj2 (C2_label_thresholds (λ _, "")))
           {[1%positive := example_table]} 1%positive example_table "text"
           example_texts {["good"]} {["bad"]}).
  - reflexivity.
  - reflexivity.
Defined.

(** ** The classifier *)

Lemma contains_lower_occurs term text :
  contains (lower term) (lower text) = true ↔ occurs_in term text.
Proof.
  rewrite contains_spec. split.
  - intros (pre & post & H).
    apply lower_app_inv in H as (s1 & s2 & -> & <- & H).
    apply lower_app_inv in H as (s3 & s4 & -> & H & <-).
    by exists s1, s3, s4.
  - intros (pre & piece & post & -> & <-).
    exists (lower pre), (lower post). by rewrite !lower_app.
Qed.

Lemma elem_of_matching_terms term text terms :
  term ∈ matching_terms (lower text) terms
  ↔ term ∈ terms ∧ occurs_in term text.
Proof.
  unfold matching_terms.
  by rewrite list_elem_of_filter, elem_of_elements, contains_lower_occurs, (comm and).
Qed.

Lemma matching_terms_NoDup text_lower terms :
  NoDup (matching_terms text_lower terms).
Proof. apply NoDup_filter, NoDup_elements. Qed.

(** The loop over the dictionaries leaves one result per dictionary. *)
Lemma classify_text_str text (dictionaries : gmap string (gset string)) :
  classify_text (VStr text) dictionaries
  = Ok ((λ terms, result_of (matching_terms (lower text) terms))
          <$> dictionaries).
Proof.
  unfold classify_text. simpl. f_equal.
  apply (map_fold_weak_ind (λ results m, results = _ <$> m)).
  - by rewrite fmap_empty.
  - intros dict_name terms m results _ ->. by rewrite fmap_insert.
Qed.

Lemma classify_text_missing text (dictionaries : gmap string (gset string)) :
  isna text = true → classify_text text dictionaries = Ok ∅.
Proof. unfold classify_text. by intros ->. Qed.

(** C3. For a text and a dictionary of the input, [classify_text] returns
    a result for that dictionary whose [matches] are, without repetition,
    the stored terms that occur in the text when case is ignored, whose
    [count] is the number of those distinct terms, and whose [present] is
    true exactly when [count > 0].  With the dictionary {vip}, "Exclusive
    deal for VIP members" gives count 1, present, matches [vip]; three
    occurrences of the term still count once. *)
Theorem C3_count_is_distinct_terms :
  (∀ (text : string) (dictionaries : gmap string (gset string))
      dict_name terms,
     dictionaries !! dict_name = Some terms →
     ∃ results r,
       classify_text (VStr text) dictionaries = Ok results
       ∧ results !! dict_name = Some r
       ∧ (∀ term, term ∈ matches r ↔ term ∈ terms ∧ occurs_in term text)
       ∧ NoDup (matches r)
       ∧ count r = Z.of_nat (size (list_to_set (C:=gset string) (matches r)))
       ∧ (present r = true ↔ (count r > 0)%Z))
  ∧ classify_text (VStr "Exclusive deal for VIP members") {["d" := {["vip"]}]}
    = Ok {["d" := {| count := 1; matches := ["vip"]; present := true |}]}
  ∧ classify_text (VStr "vip vip VIP") {["d" := {["vip"]}]}
    = Ok {["d" := {| count := 1; matches := ["vip"]; present := true |}]}.
Proof.
  split_and!.
  - intros text dictionaries dict_name terms Hd.
    eexists _, _. split; [apply classify_text_str|].
    rewrite lookup_fmap, Hd. split; [done|]. cbn [result_of matches count present].
    split_and!.
    + intros term. apply elem_of_matching_terms.
    + apply matching_terms_NoDup.
    + by rewrite size_list_to_set by apply matching_terms_NoDup.
    + by rewrite Z.gtb_gt.
  - vm_compute; reflexivity.
  - vm_compute; reflexivity.
Qed.

Lemma C3_count_is_distinct_terms_witness :
  ∃ results r,
    classify_text (VStr "Limited run, VIP only")
      {["d" := {["vip"; "run"; "gold"]}]} = Ok results
    ∧ results !! "d" = Some r
    ∧ (∀ term,
         term ∈ matches r
         ↔ term ∈ ({["vip"; "run"; "gold"]} : gset string)
           ∧ occurs_in term "Limited run, VIP only")
    ∧ NoDup (matches r)
    ∧ count r = Z.of_nat (size (list_to_set (C:=gset string) (matches r)))
    ∧ (present r = true ↔ (count r > 0)%Z).
Proof.
  apply (proj1 C3_count_is_distinct_terms "Limited run, VIP only"
           {["d" := {["vip"; "run"; "gold"]}]} "d" {["vip"; "run"; "gold"]}).
  reflexivity.
Defined.

(** C10. Terms are lowercased when they are matched, not when they are
    stored: a stored term is reported exactly when it occurs in the text
    with case ignored, whatever its own casing, and what [matches] reports
    is the term as stored.  Stored as "VIP", the term matches "for vip
    members" and is reported as "VIP". *)
Theorem C10_match_time_lowercasing :
  (∀ (text : string) (dictionaries : gmap string (gset string))
      dict_name terms,
     dictionaries !! dict_name = Some terms →
     ∃ results r,
       classify_text (VStr text) dictionaries = Ok results
       ∧ results !! dict_name = Some r
       ∧ (∀ term, term ∈ terms →
            (term ∈ matches r
             ↔ contains (lower term) (lower text) = true)
            ∧ (term ∈ matches r ↔ occurs_in term text))
       ∧ (∀ term, term ∈ matches r → term ∈ terms))
  ∧ classify_text (VStr "for vip members") {["d" := {["VIP"]}]}
    = Ok {["d" := {| count := 1; matches := ["VIP"]; present := true |}]}
  ∧ classify_text (VStr "Our ViP Club") {["d" := {["vIp"; "gold"]}]}
    = Ok {["d" := {| count := 1; matches := ["vIp"]; present := true |}]}.
Proof.
  split_and!.
  - intros text dictionaries dict_name terms Hd.
    eexists _, _. split; [apply classify_text_str|].
    rewrite lookup_fmap, Hd. split; [done|]. cbn [result_of matches].
    split.
    + intros term Hterm. rewrite contains_lower_occurs.
      rewrite elem_of_matching_terms. tauto.
    + by intros term [? _]%elem_of_matching_terms.
  - vm_compute; reflexivity.
  - vm_compute; reflexivity.
Qed.

Lemma C10_match_time_lowercasing_witness :
  ∃ results r,
    classify_text (VStr "for vip members") {["d" := {["VIP"]}]} = Ok results
    ∧ results !! "d" = Some r
    ∧ (∀ term, term ∈ ({["VIP"]} : gset string) →
         (term ∈ matches r
          ↔ contains (lower term) (lower "for vip members") = true)
         ∧ (term ∈ matches r ↔ occurs_in term "for vip members"))
    ∧ (∀ term, term ∈ matches r → term ∈ ({["VIP"]} : gset string)).
Proof.
  apply (proj1 C10_match_time_lowercasing "for vip members"
           {["d" := {["VIP"]}]} "d").
  vm_compute. reflexivity.
Defined.

Lemma isna_missing text : isna text = true ↔ missing text.
Proof. unfold missing. destruct text; naive_solver. Qed.

Lemma missing_blank text : missing text → blank text.
Proof. by left. Qed.

Lemma apply_lookup {A} (f : value → res A) series ys i x :
  apply f series = Ok ys → series !! i = Some x →
  ∃ y, ys !! i = Some y ∧ f x = Ok y.
Proof.
  revert ys i. induction series as [|x' series IH]; intros ys i; [done|].
  cbn [apply]. unfold mbind, res_bind.
  destruct (f x') as [y'|] eqn:Hy; [|done].
  destruct (apply f series) as [ys'|]; [|done]. intros [= <-].
  destruct i as [|i]; simpl.
  - intros [= <-]. eauto.
  - by apply IH.
Qed.

Lemma apply_length {A} (f : value → res A) series ys :
  apply f series = Ok ys → length ys = length series.
Proof.
  revert ys. induction series as [|x series IH]; intros ys.
  - by intros [= <-].
  - cbn [apply]. unfold mbind, res_bind.
    destruct (f x); [|done]. destruct (apply f series); [|done].
    intros [= <-]. simpl. by rewrite IH.
Qed.

(** C5, as stated, fails: for a missing text [classify_text] returns the
    empty mapping, which holds no result for any dictionary of the input. *)
Lemma C5_counterexample :
  ¬ (∀ (dictionaries : gmap string (gset string)) dict_name,
       dict_name ∈ dom dictionaries →
       ∃ results r,
         classify_text VNaN dictionaries = Ok results
         ∧ results !! dict_name = Some r
         ∧ count r = 0%Z ∧ present r = false ∧ matches r = []).
Proof.
  intros H.
  destruct (H {["d" := {["vip"]}]} "d") as (results & r & Hcl & Hr & _).
  { apply elem_of_dom. by exists {["vip"]}. }
  rewrite classify_text_missing in Hcl by done. injection Hcl as <-.
  by rewrite lookup_empty in Hr.
Qed.

(** C5, amended. A missing text (None or NaN) is no error.  [classify_text]
    returns the empty mapping, with no entry for any dictionary; it is
    [process_dataframe] that reads from it, for every dictionary, the
    defaults count 0, present false and no matches (joined: the empty
    string), in every row of a classified series whose cell is missing; and
    the scorer gives the cell 0, labelled "Neutral". *)
Theorem C5_missing_text_is_no_match :
  (∀ text (dictionaries : gmap string (gset string)),
     missing text →
     classify_text text dictionaries = Ok ∅
     ∧ ∀ dict_name,
         (∅ : gmap string match_result) !! dict_name = None
         ∧ get_count dict_name ∅ = 0%Z
         ∧ get_present dict_name ∅ = false
         ∧ get_matches dict_name ∅ = []
         ∧ join ", " (get_matches dict_name ∅) = "")
  ∧ (∀ series (dictionaries : gmap string (gset string)) classifications
       i text dict_name,
       apply (λ x, classify_text x dictionaries) series = Ok classifications →
       series !! i = Some text → missing text →
       classifications !! i = Some ∅
       ∧ ((λ x, VInt (get_count dict_name x)) <$> classifications) !! i
         = Some (VInt 0)
       ∧ ((λ x, VBool (get_present dict_name x)) <$> classifications) !! i
         = Some (VBool false)
       ∧ ((λ x, VStr (join ", " (get_matches dict_name x)))
            <$> classifications) !! i
         = Some (VStr ""))
  ∧ (∀ float_str text positive_words negative_words,
       missing text →
       continuous_sentiment_score float_str text
         positive_words negative_words = 0%Q
       ∧ sentiment_label
           (VFloat (continuous_sentiment_score float_str text
                      positive_words negative_words))
         = Ok (VStr "Neutral")).
Proof.
  split_and!.
  - intros text dictionaries Hmiss%isna_missing.
    split; [by apply classify_text_missing|]. intros dict_name.
    by rewrite lookup_empty.
  - intros series dictionaries cls i text dict_name Happly Hi Hmiss%isna_missing.
    destruct (apply_lookup _ _ _ _ _ Happly Hi) as (y & Hy & Hcl).
    rewrite classify_text_missing in Hcl by done. simplify_eq.
    by rewrite !list_lookup_fmap, Hy.
  - intros float_str text P N Hmiss%missing_blank. by rewrite score_blank.
Qed.

Lemma C5_missing_text_is_no_match_witness :
  classify_text VNaN DEFAULT_DICTIONARIES = Ok ∅
  ∧ ∀ dict_name,
      (∅ : gmap string match_result) !! dict_name = None
      ∧ get_count dict_name ∅ = 0%Z
      ∧ get_present dict_name ∅ = false
      ∧ get_matches dict_name ∅ = []
      ∧ join ", " (get_matches dict_name ∅) = "".
Proof.
  apply (proj1 C5_missing_text_is_no_match VNaN DEFAULT_DICTIONARIES).
  right. reflexivity.
Defined.

(** C8, as stated, fails: there is no step that turns a non-string cell
    into the empty text.  The bool [True], which pandas leaves in a text
    column that mixes booleans and missing values, is scored as the text
    "True", lowercased to the positive word "true". *)
Lemma C8_counterexample :
  ¬ (∀ float_str text positive_words negative_words,
       non_string text →
       (continuous_sentiment_score float_str text
          positive_words negative_words
        == continuous_sentiment_score float_str (VStr "")
             positive_words negative_words)%Q).
Proof.
  intros H. specialize (H (λ _, "") (VBool true) {["true"]} ∅).
  assert (non_string (VBool true)) as Hns by (by intros s).
  apply H in Hns. vm_compute in Hns. discriminate.
Qed.

(** C8, amended. A missing cell (None or NaN) is handled by both functions
    without failing: the scorer returns 0, labelled "Neutral", exactly as for
    the empty text, and the classifier returns the empty mapping.  Any other
    cell is scored on its [str()] rendering when it is truthy and gets 0
    when it is falsy. *)
Theorem C8_missing_is_neutral_non_string_is_rendered
    (float_str : Q → string) :
  (∀ text positive_words negative_words
      (dictionaries : gmap string (gset string)),
     missing text →
     continuous_sentiment_score float_str text positive_words negative_words
     = continuous_sentiment_score float_str (VStr "")
         positive_words negative_words
     ∧ continuous_sentiment_score float_str text
         positive_words negative_words = 0%Q
     ∧ sentiment_label
         (VFloat (continuous_sentiment_score float_str text
                    positive_words negative_words))
       = Ok (VStr "Neutral")
     ∧ classify_text text dictionaries = Ok ∅)
  ∧ (∀ text positive_words negative_words,
       ¬ missing text →
       continuous_sentiment_score float_str text positive_words negative_words
       = if truthy text
         then continuous_sentiment_score float_str
                (VStr (py_str float_str text)) positive_words negative_words
         else 0%Q).
Proof.
  split.
  - intros text P N dictionaries Hmiss. split_and!.
    + rewrite !score_blank; [done|right; by exists ""|].
      by apply missing_blank.
    + by apply score_blank, missing_blank.
    + by rewrite score_blank by by apply missing_blank.
    + by apply classify_text_missing, isna_missing.
  - intros text P N Hmiss. rewrite <-isna_missing in Hmiss.
    apply not_true_is_false in Hmiss.
    unfold continuous_sentiment_score at 1. rewrite Hmiss, orb_false_r.
    destruct (truthy text) eqn:Ht; [|done]. cbn [negb].
    destruct (decide (py_str float_str text = "")) as [Hs|Hs].
    + rewrite Hs. by vm_compute.
    + unfold continuous_sentiment_score. simpl.
      by rewrite (bool_decide_false (py_str float_str text = "")).
Qed.

Lemma C8_missing_is_neutral_non_string_is_rendered_witness :
  continuous_sentiment_score (λ _, "") (VBool true) {["true"]} ∅
  = if truthy (VBool true)
    then continuous_sentiment_score (λ _, "")
           (VStr (py_str (λ _, "") (VBool true))) {["true"]} ∅
    else 0%Q.
Proof.
  apply (proj2 (C8_missing_is_neutral_non_string_is_rendered (λ _, ""))
           (VBool true) {["true"]} ∅).
  intros [H|H]; discriminate H.
Defined.

(** Outside the statement of C8: [classify_text] calls [text.lower()] on
    whatever is not missing, which only a string has. *)
Lemma classify_text_non_string text
    (dictionaries : gmap string (gset string)) :
  non_string text → ¬ missing text →
  classify_text text dictionaries = Raise AttributeError.
Proof.
  intros Hns Hmiss. unfold missing in Hmiss.
  destruct text; try done; [by destruct (Hns s)|tauto|tauto].
Qed.

(** ** The batch functions *)

Lemma for_each_columns classifications keys (σ : store) out idx cols :
  σ !! out = Some {| df_index := idx; df_columns := cols |} →
  for_each keys (λ dict_name,
    _ ← df_setitem out (dict_name +:+ "_count")
          ((λ x, VInt (get_count dict_name x)) <$> classifications);
    _ ← df_setitem out (dict_name +:+ "_present")
          ((λ x, VBool (get_present dict_name x)) <$> classifications);
    df_setitem out (dict_name +:+ "_matches")
      ((λ x, VStr (join ", " (get_matches dict_name x)))
         <$> classifications)) σ
  = (Ok (),
     <[out := {| df_index := idx;
                 df_columns :=
                   foldl (add_dict_columns classifications) cols keys |}]> σ).
Proof.
  revert σ cols. induction keys as [|dict_name keys IH]; intros σ cols Hout.
  - cbn [for_each foldl]. by rewrite insert_id.
  - cbn [for_each foldl]. rewrite bind_run, bind_run.
    erewrite df_setitem_run by done.
    erewrite bind_run, df_setitem_run by apply lookup_insert_eq.
    rewrite insert_insert_eq.
    erewrite df_setitem_run by apply lookup_insert_eq.
    rewrite insert_insert_eq. cbn [df_index df_columns].
    erewrite IH by apply lookup_insert_eq. by rewrite insert_insert_eq.
Qed.

(** What a run of [process_dataframe] returns and leaves in the store. *)
Lemma process_dataframe_run (σ : store) df t text_column
    (dictionaries : gmap string (gset string)) :
  σ !! df = Some t →
  process_dataframe df text_column dictionaries σ
  = match col_get text_column (df_columns t) with
    | None => (Raise KeyError, σ)
    | Some texts =>
        match apply (λ x, classify_text x dictionaries) texts with
        | Raise e => (Raise e, σ)
        | Ok classifications =>
            (Ok (fresh (dom σ)),
             <[fresh (dom σ) :=
                 {| df_index := df_index t;
                    df_columns :=
                      foldl (add_dict_columns classifications) (df_columns t)
                        (map_to_list dictionaries).*1 |}]> σ)
        end
    end.
Proof.
  intros Hdf. unfold process_dataframe.
  rewrite bind_run, (df_getitem_run _ _ t) by done.
  destruct (col_get text_column (df_columns t)) as [texts|]; [|done].
  cbn [from_option]. rewrite bind_run. unfold lift_res.
  destruct (apply _ texts) as [classifications|e]; [|done].
  rewrite bind_run, (df_copy_run _ _ t) by done.
  rewrite bind_run.
  erewrite (for_each_columns _ _ _ _ (df_index t) (df_columns t)).
  - by rewrite insert_insert_eq.
  - rewrite lookup_insert_eq. by destruct t.
Qed.

Lemma add_dict_columns_prefix classifications cols keys :
  cols.*1 `prefix_of` (foldl (add_dict_columns classifications) cols keys).*1.
Proof.
  revert cols. induction keys as [|k keys IH]; intros cols; [done|].
  cbn [foldl]. etrans; [|apply IH]. unfold add_dict_columns.
  do 2 (etrans; [apply col_set_prefix|]). apply col_set_prefix.
Qed.

Lemma add_dict_columns_frame classifications cols keys name :
  (∀ k, k ∈ keys →
        name ∉ [k +:+ "_count"; k +:+ "_present"; k +:+ "_matches"]) →
  col_get name (foldl (add_dict_columns classifications) cols keys)
  = col_get name cols.
Proof.
  revert cols. induction keys as [|k keys IH]; intros cols Hname; [done|].
  cbn [foldl]. rewrite IH by (intros k' ?; apply Hname; by right).
  specialize (Hname k (list_elem_of_here _ _)).
  rewrite !not_elem_of_cons in Hname. destruct Hname as (? & ? & ? & _).
  unfold add_dict_columns. by rewrite !col_get_set_ne.
Qed.

Lemma add_dict_columns_wf classifications cols keys :
  Forall (λ c : string * list value, length c.2 = length classifications) cols →
  Forall (λ c : string * list value, length c.2 = length classifications)
    (foldl (add_dict_columns classifications) cols keys).
Proof.
  revert cols. induction keys as [|k keys IH]; intros cols Hwf; [done|].
  cbn [foldl]. apply IH. unfold add_dict_columns.
  repeat apply col_set_wf; try done; apply length_fmap.
Qed.

Lemma apply_total {A} (f : value → res A) series :
  Forall (λ x, ∃ y, f x = Ok y) series → ∃ ys, apply f series = Ok ys.
Proof.
  induction 1 as [|x series [y Hy] _ [ys Hys]]; [by exists []|].
  exists (y :: ys). cbn [apply]. by rewrite Hy, Hys.
Qed.

Lemma classify_text_total x (dictionaries : gmap string (gset string)) :
  text_or_missing x → ∃ y, classify_text x dictionaries = Ok y.
Proof.
  intros [Hmiss%isna_missing|[s ->]].
  - exists ∅. by apply classify_text_missing.
  - eexists. apply classify_text_str.
Qed.

Lemma fresh_other (σ : store) l : l ∈ dom σ → fresh (dom σ) ≠ l.
Proof. intros Hl Heq. apply (is_fresh (dom σ)). by rewrite Heq. Qed.

(** C9, as stated, fails: a column of the input that bears the name of a
    derived column is overwritten in the copy. *)
Lemma C9_counterexample :
  ∃ out σ' t',
    process_sentiment_data (λ _, "") 1%positive "text" {["good"]} ∅
      {[1%positive := rescored_table]} = (Ok out, σ')
    ∧ σ' !! out = Some t'
    ∧ ¬ keeps_all_columns rescored_table t'.
Proof.
  eexists _, _, _. split_and!.
  - vm_compute. reflexivity.
  - vm_compute. reflexivity.
  - intros H. specialize (H "sentiment_score" [VStr "n/a"] eq_refl).
    vm_compute in H. discriminate H.
Qed.

(** C9, amended. Both batch functions leave every object of the store,
    the input table included, as it was.  [process_sentiment_data] succeeds
    whenever the text column exists, [process_dataframe] whenever it exists
    and holds only strings and missing values.  On success the result is a
    new object with the index of the input, the input's columns first and in
    their order, and the input's cells in every column whose name is not
    that of a derived column; a column of the input that bears a derived
    name is assigned anew.  Columns as long as the index stay so. *)
Theorem C9_copy_with_derived_columns (float_str : Q → string) :
  (∀ (σ : store) df t text_column positive_words negative_words,
     σ !! df = Some t →
     ∃ r σ',
       process_sentiment_data float_str df text_column
         positive_words negative_words σ = (r, σ')
       ∧ (∀ l, l ∈ dom σ → σ' !! l = σ !! l)
       ∧ (is_Some (col_get text_column (df_columns t)) → ∃ out, r = Ok out)
       ∧ (∀ out, r = Ok out →
            (out ∉ dom σ)
            ∧ ∃ t', σ' !! out = Some t'
                    ∧ frame_ok scorer_columns t t'
                    ∧ (wf_frame t → wf_frame t')))
  ∧ (∀ (σ : store) df t text_column
       (dictionaries : gmap string (gset string)),
       σ !! df = Some t →
       ∃ r σ',
         process_dataframe df text_column dictionaries σ = (r, σ')
         ∧ (∀ l, l ∈ dom σ → σ' !! l = σ !! l)
         ∧ (∀ texts, col_get text_column (df_columns t) = Some texts →
                     Forall text_or_missing texts → ∃ out, r = Ok out)
         ∧ (∀ out, r = Ok out →
              (out ∉ dom σ)
              ∧ ∃ t', σ' !! out = Some t'
                      ∧ frame_ok (classifier_columns dictionaries) t t'
                      ∧ (wf_frame t → wf_frame t'))).
Proof.
  split.
  - intros σ df t text_column P N Hdf.
    rewrite (process_sentiment_data_run _ _ _ t) by done. cbn zeta.
    destruct (col_get text_column (df_columns t)) as [texts|] eqn:Hcol;
      eexists _, _; (split; [done|]); split_and!.
    + intros l Hl. by rewrite lookup_insert_ne by by apply fresh_other.
    + eauto.
    + intros out [= <-]. split; [apply is_fresh|].
      eexists. split; [apply lookup_insert_eq|]. split; [split_and!|].
      * done.
      * cbn [df_columns]. etrans; apply col_set_prefix.
      * intros name Hname. cbn [df_columns]. unfold scorer_columns in Hname.
        rewrite !not_elem_of_cons in Hname. destruct Hname as (? & ? & _).
        by rewrite !col_get_set_ne.
      * unfold wf_frame. cbn [df_index df_columns]. intros Hwf.
        pose proof (col_get_wf _ _ _ _ Hwf Hcol) as Hlen.
        repeat apply col_set_wf; try done; by rewrite length_fmap.
    + intros l Hl. by rewrite lookup_insert_ne by by apply fresh_other.
    + by intros [? ?].
    + done.
  - intros σ df t text_column dictionaries Hdf.
    rewrite (process_dataframe_run _ _ t) by done.
    destruct (col_get text_column (df_columns t)) as [texts|] eqn:Hcol.
    2:{ eexists _, _. split; [done|]. split_and!; done. }
    destruct (apply _ texts) as [cls|e] eqn:Happly.
    2:{ eexists _, _. split; [done|]. split_and!; [done| |done].
        intros ? [= <-] Hall.
        destruct (apply_total (λ x, classify_text x dictionaries) texts)
          as [ys Hys]; [|congruence].
        eapply Forall_impl; [done|]. intros x. apply classify_text_total. }
    eexists _, _. split; [done|]. split_and!.
    + intros l Hl. by rewrite lookup_insert_ne by by apply fresh_other.
    + eauto.
    + intros out [= <-]. split; [apply is_fresh|].
      eexists. split; [apply lookup_insert_eq|]. split; [split_and!|].
      * done.
      * apply add_dict_columns_prefix.
      * intros name Hname. cbn [df_columns].
        apply add_dict_columns_frame. intros k Hk Hin. apply Hname.
        exists k. split; [|done].
        apply list_elem_of_fmap in Hk as ([k' terms] & -> & Hk).
        apply elem_of_map_to_list in Hk. by apply elem_of_dom.
      * unfold wf_frame. cbn [df_index df_columns]. intros Hwf.
        pose proof (col_get_wf _ _ _ _ Hwf Hcol) as Hlen.
        rewrite <-Hlen, <-(apply_length _ _ _ Happly).
        apply add_dict_columns_wf.
        by rewrite (apply_length _ _ _ Happly), Hlen.
Qed.

Lemma C9_copy_with_derived_columns_witness :
  ∃ r σ',
    process_sentiment_data (λ _, "") 1%positive "text" {["good"]} ∅
      {[1%positive := rescored_table]} = (r, σ')
    ∧ (∀ l, l ∈ dom ({[1%positive := rescored_table]} : store) →
            σ' !! l = ({[1%positive := rescored_table]} : store) !! l)
    ∧ (is_Some (col_get "text" (df_columns rescored_table)) →
       ∃ out, r = Ok out)
    ∧ (∀ out, r = Ok out →
         (out ∉ dom ({[1%positive := rescored_table]} : store))
         ∧ ∃ t', σ' !! out = Some t'
                 ∧ frame_ok scorer_columns rescored_table t'
                 ∧ (wf_frame rescored_table → wf_frame t')).
Proof.
  apply (proj1 (C9_copy_with_derived_columns (λ _, ""))
           {[1%positive := rescored_table]} 1%positive rescored_table
           "text" {["good"]} ∅).
  reflexivity.
Defined.

(** * Further properties of the code *)

(** ** The scorer's tokens *)

Lemma filter_ext_on {A} (P1 P2 : A → Prop)
    `{!∀ x, Decision (P1 x), !∀ x, Decision (P2 x)} (l : list A) :
  (∀ x, x ∈ l → P1 x ↔ P2 x) → filter P1 l = filter P2 l.
Proof.
  induction l as [|x l IH]; intros Hext; [done|].
  rewrite !filter_cons. rewrite IH by (intros y ?; apply Hext; by right).
  pose proof (Hext x (list_elem_of_here _ _)) as Hx.
  destruct (decide (P1 x)), (decide (P2 x)); try done; tauto.
Qed.

Lemma has_space_app s1 s2 :
  has_space (s1 +:+ s2) = has_space s1 || has_space s2.
Proof.
  induction s1 as [|c s1 IH]; [done|].
  rewrite app_cons. simpl. by rewrite IH, orb_assoc.
Qed.

Lemma split_go_tokens cur s w :
  has_space cur = false → lowercased cur → lowercased s →
  w ∈ split_go cur s → w ≠ "" ∧ has_space w = false ∧ lowercased w.
Proof.
  revert cur. induction s as [|c s IH]; intros cur Hcur Hlow Hs; simpl.
  - destruct (decide (cur = "")); [by intros ?%elem_of_nil|].
    by intros ->%list_elem_of_singleton.
  - unfold lowercased in Hs. simpl in Hs. injection Hs as Hc' Hs'.
    destruct (isspace c) eqn:Hc.
    + rewrite elem_of_app. intros [Hw|Hw].
      * destruct (decide (cur = "")); [by apply elem_of_nil in Hw|].
        by apply list_elem_of_singleton in Hw as ->.
      * by apply (IH "").
    + apply IH; [| |done].
      * rewrite has_space_app, Hcur. simpl. by rewrite Hc.
      * unfold lowercased in *. rewrite lower_app. simpl.
        by rewrite Hlow, Hc'.
Qed.

(** A token is never empty, holds no whitespace and is in lower case. *)
Lemma tokens_shape float_str text w :
  w ∈ tokens float_str text → w ≠ "" ∧ has_space w = false ∧ lowercased w.
Proof.
  unfold tokens, split. apply split_go_tokens; [done..|apply lower_idemp].
Qed.

Lemma score_ext float_str text (P P' N N' : gset string) :
  (∀ w, w ∈ tokens float_str text → w ∈ P ↔ w ∈ P') →
  (∀ w, w ∈ tokens float_str text → w ∈ N ↔ w ∈ N') →
  continuous_sentiment_score float_str text P N
  = continuous_sentiment_score float_str text P' N'.
Proof.
  intros HP HN. unfold continuous_sentiment_score, pos_count, neg_count.
  fold (tokens float_str text).
  by rewrite (filter_ext_on (λ w, w ∈ P) (λ w, w ∈ P') _ HP),
    (filter_ext_on (λ w, w ∈ N) (λ w, w ∈ N') _ HN).
Qed.

(** X1. A dictionary term that is empty, holds whitespace (a phrase of
    several words) or has an upper-case letter can never be a token, so
    adding it to the positive or to the negative set changes no score. *)
Theorem dead_terms_never_count float_str text t
    (positive_words negative_words : gset string) :
  t = "" ∨ has_space t = true ∨ ¬ lowercased t →
  continuous_sentiment_score float_str text
    ({[t]} ∪ positive_words) negative_words
  = continuous_sentiment_score float_str text positive_words negative_words
  ∧ continuous_sentiment_score float_str text
      positive_words ({[t]} ∪ negative_words)
    = continuous_sentiment_score float_str text positive_words negative_words.
Proof.
  intros Hdead.
  assert (∀ w, w ∈ tokens float_str text → w ≠ t) as Hne.
  { intros w (? & ? & ?)%tokens_shape ->.
    destruct Hdead as [?|[?|?]]; [done|congruence|done]. }
  split; apply score_ext; try done; intros w Hw%Hne; set_solver.
Qed.

Lemma dead_terms_never_count_witness :
  continuous_sentiment_score (λ _, "") (VStr "Not good at all")
    ({["not good"]} ∪ {["good"]}) {["bad"]}
  = continuous_sentiment_score (λ _, "") (VStr "Not good at all")
      {["good"]} {["bad"]}
  ∧ continuous_sentiment_score (λ _, "") (VStr "Not good at all")
      {["good"]} ({["not good"]} ∪ {["bad"]})
    = continuous_sentiment_score (λ _, "") (VStr "Not good at all")
        {["good"]} {["bad"]}.
Proof.
  apply (dead_terms_never_count (λ _, "") (VStr "Not good at all")
           "not good" {["good"]} {["bad"]}).
  right. left. reflexivity.
Defined.

(** X2. Exchanging the positive and the negative set negates the score,
    and a dictionary whose two sets are equal scores every cell 0. *)
Theorem score_swap_negates float_str text (P N : gset string) :
  (continuous_sentiment_score float_str text N P
   == - continuous_sentiment_score float_str text P N)%Q
  ∧ (continuous_sentiment_score float_str text P P == 0)%Q.
Proof.
  assert (∀ A B : gset string,
            continuous_sentiment_score float_str text B A
            == - continuous_sentiment_score float_str text A B)%Q as Hswap.
  { intros A B. unfold continuous_sentiment_score, pos_count, neg_count.
    destruct (_ || _); [done|]. case_bool_decide; [done|].
    set (p := Z.of_nat (length (filter (λ w, w ∈ A) _))).
    set (n := Z.of_nat (length (filter (λ w, w ∈ B) _))).
    rewrite (Z.add_comm n p). destruct (p + n =? 0)%Z; [done|].
    replace (n - p)%Z with (- (p - n))%Z by lia.
    rewrite inject_Z_opp. unfold Qdiv. ring. }
  split; [apply Hswap|].
  pose proof (Hswap P P) as H. revert H.
  generalize (continuous_sentiment_score float_str text P P).
  intros q. unfold Qeq. simpl. lia.
Qed.

Lemma length_filter_pos {A} (P : A → Prop) `{!∀ x, Decision (P x)} l x :
  x ∈ l → P x → 0 < length (filter P l).
Proof.
  intros Hx HP. assert (x ∈ filter P l) as Hin by by apply list_elem_of_filter.
  destruct (filter P l); [by apply elem_of_nil in Hin|simpl; lia].
Qed.

Lemma length_filter_none {A} (P : A → Prop) `{!∀ x, Decision (P x)} l :
  (∀ x, x ∈ l → ¬ P x) → length (filter P l) = 0.
Proof.
  intros Hall. destruct (filter P l) as [|x l'] eqn:Hf; [done|].
  assert (x ∈ filter P l) as [HP Hx]%list_elem_of_filter by (rewrite Hf; left).
  by destruct (Hall x Hx).
Qed.

(** X3. A text with at least one token in the positive set and none in the
    negative set scores 1 and is labelled "Positive"; with at least one in
    the negative set and none in the positive set it scores -1 and is
    labelled "Negative". *)
Theorem score_one_sided float_str (text : string)
    (positive_words negative_words : gset string) :
  let words := tokens float_str (VStr text) in
  let score := continuous_sentiment_score float_str (VStr text)
                 positive_words negative_words in
  ((∃ w, w ∈ words ∧ w ∈ positive_words) →
   (∀ w, w ∈ words → w ∉ negative_words) →
   (score == 1)%Q ∧ sentiment_label (VFloat score) = Ok (VStr "Positive"))
  ∧ ((∃ w, w ∈ words ∧ w ∈ negative_words) →
     (∀ w, w ∈ words → w ∉ positive_words) →
     (score == - (1))%Q
     ∧ sentiment_label (VFloat score) = Ok (VStr "Negative")).
Proof.
  intros words score.
  assert (score = let p := pos_count words positive_words in
                  let n := neg_count words negative_words in
                  if (p + n =? 0)%Z then 0%Q
                  else (inject_Z (p - n) / inject_Z (p + n))%Q) as Hscore.
  { apply score_str. }
  cbn zeta in Hscore. unfold pos_count, neg_count in Hscore.
  split.
  - intros (w & Hw & HP) Hnone.
    pose proof (length_filter_pos (λ w, w ∈ positive_words) words w Hw HP).
    rewrite (length_filter_none (λ w, w ∈ negative_words) words Hnone)
      in Hscore.
    change (Z.of_nat 0) with 0%Z in Hscore.
    rewrite Z.add_0_r, Z.sub_0_r in Hscore.
    rewrite (proj2 (Z.eqb_neq _ _)) in Hscore by lia.
    assert (score == 1)%Q as H1.
    { rewrite Hscore. apply Qmult_inv_r.
      change 0%Q with (inject_Z 0). rewrite inject_Z_injective. lia. }
    split; [done|]. rewrite sentiment_label_float. do 2 f_equal.
    apply label_of_score_spec. by rewrite H1.
  - intros (w & Hw & HN) Hnone.
    pose proof (length_filter_pos (λ w, w ∈ negative_words) words w Hw HN).
    rewrite (length_filter_none (λ w, w ∈ positive_words) words Hnone)
      in Hscore.
    change (Z.of_nat 0) with 0%Z in Hscore.
    rewrite Z.add_0_l, Z.sub_0_l in Hscore.
    rewrite (proj2 (Z.eqb_neq _ _)) in Hscore by lia.
    assert (score == - (1))%Q as H1.
    { rewrite Hscore, inject_Z_opp. unfold Qdiv.
      set (q := inject_Z _). transitivity (- (q * / q))%Q; [ring|].
      rewrite Qmult_inv_r; [done|]. unfold q.
      change 0%Q with (inject_Z 0). rewrite inject_Z_injective. lia. }
    split; [done|]. rewrite sentiment_label_float. do 2 f_equal.
    apply label_of_score_spec. by rewrite H1.
Qed.

Lemma score_one_sided_witness :
  (continuous_sentiment_score (λ _, "") (VStr "Good, GOOD stuff")
     {["good"]} {["bad"]} == 1)%Q
  ∧ sentiment_label
      (VFloat (continuous_sentiment_score (λ _, "") (VStr "Good, GOOD stuff")
                 {["good"]} {["bad"]}))
    = Ok (VStr "Positive").
Proof.
  apply (proj1 (score_one_sided (λ _, "") "Good, GOOD stuff"
                  {["good"]} {["bad"]})).
  - exists "good". split; [vm_compute; set_solver|set_solver].
  - intros w Hw. vm_compute in Hw. set_solver.
Defined.

(** ** Sentiment dictionaries as sets of lines *)

Lemma app_assoc_str (a b c : string) : (a +:+ b) +:+ c = a +:+ (b +:+ c).
Proof. induction a as [|x a IH]; [done|]. by rewrite !app_cons, IH. Qed.

Lemma app_nil_r_str (a : string) : a +:+ "" = a.
Proof. induction a as [|x a IH]; [done|]. by rewrite app_cons, IH. Qed.

Lemma split_on_nonempty sep s : split_on sep s ≠ [].
Proof.
  destruct s as [|c s]; simpl; [done|].
  destruct (Ascii.eqb c sep); [done|]. by destruct (split_on sep s).
Qed.

(** Cutting at a separator: the pieces before it, then the pieces after. *)
Lemma split_on_app sep a b :
  split_on sep (a +:+ String sep b) = (split_on sep a ++ split_on sep b)%list.
Proof.
  induction a as [|c a IH].
  - simpl. by rewrite Ascii.eqb_refl.
  - rewrite app_cons. simpl. rewrite IH.
    destruct (Ascii.eqb c sep); [done|].
    pose proof (split_on_nonempty sep a). by destruct (split_on sep a).
Qed.

Lemma dict_lines_app a b :
  dict_lines (a +:+ LF +:+ b) = (dict_lines a ++ dict_lines b)%list.
Proof.
  unfold dict_lines.
  change (a +:+ LF +:+ b) with (a +:+ String "010" b).
  by rewrite split_on_app, filter_app, fmap_app.
Qed.

(** X4. Joining two dictionary texts with a newline loads the union of what
    each loads: appended lines only add terms, they never remove or move
    one. *)
Theorem load_dictionary_concat a b :
  (load_dictionary_from_text (a +:+ LF +:+ b)).1
  = (load_dictionary_from_text a).1 ∪ (load_dictionary_from_text b).1
  ∧ (load_dictionary_from_text (a +:+ LF +:+ b)).2
    = (load_dictionary_from_text a).2 ∪ (load_dictionary_from_text b).2.
Proof.
  split; apply set_eq; intros t; rewrite elem_of_union.
  - rewrite !(proj1 (load_dictionary_spec _ t)), dict_lines_app.
    setoid_rewrite elem_of_app. naive_solver.
  - rewrite !(proj2 (load_dictionary_spec _ t)), dict_lines_app.
    setoid_rewrite elem_of_app. naive_solver.
Qed.

(** X5. What is loaded depends only on which lines occur once trimmed and
    lowercased: their order, their repetition, blank lines between them and
    their casing make no difference. *)
Theorem load_dictionary_line_set text1 text2 :
  (∀ line, line ∈ dict_lines text1 ↔ line ∈ dict_lines text2) →
  load_dictionary_from_text text1 = load_dictionary_from_text text2.
Proof.
  intros Hlines.
  destruct (load_dictionary_from_text text1) as [P1 N1] eqn:H1,
    (load_dictionary_from_text text2) as [P2 N2] eqn:H2.
  f_equal; apply set_eq; intros t.
  - pose proof (proj1 (load_dictionary_spec text1 t)) as Ha.
    pose proof (proj1 (load_dictionary_spec text2 t)) as Hb.
    rewrite H1 in Ha. rewrite H2 in Hb. simpl in Ha, Hb.
    rewrite Ha, Hb. by setoid_rewrite Hlines.
  - pose proof (proj2 (load_dictionary_spec text1 t)) as Ha.
    pose proof (proj2 (load_dictionary_spec text2 t)) as Hb.
    rewrite H1 in Ha. rewrite H2 in Hb. simpl in Ha, Hb.
    rewrite Ha, Hb. by setoid_rewrite Hlines.
Qed.

Lemma load_dictionary_line_set_witness :
  load_dictionary_from_text ("good,pos" +:+ LF +:+ "bad,neg" +:+ LF +:+ "good,pos")
  = load_dictionary_from_text ("BAD,neg" +:+ LF +:+ LF +:+ "  Good,pos ").
Proof.
  apply (load_dictionary_line_set
           ("good,pos" +:+ LF +:+ "bad,neg" +:+ LF +:+ "good,pos")
           ("BAD,neg" +:+ LF +:+ LF +:+ "  Good,pos ")).
  intros line. vm_compute dict_lines. set_solver.
Defined.

(** ** Editing the classifier's dictionaries *)

Lemma split_on_whole sep s : ¬ has_char sep s → split_on sep s = [s].
Proof.
  induction s as [|c s IH]; intros Hno; simpl; [done|].
  rewrite has_char_cons in Hno.
  destruct (Ascii.eqb_spec c sep) as [->|_]; [tauto|].
  rewrite IH by tauto. done.
Qed.

Lemma split_on_pieces sep s w : w ∈ split_on sep s → ¬ has_char sep w.
Proof.
  revert w. induction s as [|c s IH]; intros w; simpl.
  - intros ->%list_elem_of_singleton. apply has_char_empty.
  - destruct (Ascii.eqb_spec c sep) as [->|Hne].
    + intros [->|?]%elem_of_cons; [apply has_char_empty|by apply IH].
    + pose proof (split_on_nonempty sep s).
      destruct (split_on sep s) as [|w' ws]; [done|].
      intros [->|?]%elem_of_cons.
      * rewrite has_char_cons. intros [?|?]; [done|].
        by apply (IH w'); [left|].
      * apply IH. by right.
Qed.

Lemma split_on_join sep l :
  Forall (λ s, ¬ has_char sep s) l → l ≠ [] →
  split_on sep (join (String sep "") l) = l.
Proof.
  induction 1 as [|w l Hw Hl IH]; intros Hne; [done|].
  destruct l as [|w' l]; [by apply split_on_whole|].
  change (join (String sep "") (w :: w' :: l))
    with (w +:+ String sep (join (String sep "") (w' :: l))).
  rewrite split_on_app, split_on_whole, IH by done. done.
Qed.

Lemma has_char_lstrip c s : has_char c (lstrip s) → has_char c s.
Proof.
  induction s as [|x s IH]; simpl; [done|].
  destruct (isspace x); [|done]. rewrite has_char_cons. auto.
Qed.

Lemma has_char_rstrip c s : has_char c (rstrip s) → has_char c s.
Proof.
  induction s as [|x s IH]; simpl; [done|].
  destruct (rstrip s) as [|y r].
  - destruct (isspace x); [by intros ?%has_char_empty|].
    rewrite !has_char_cons. intros [?|?%has_char_empty]; [by left|done].
  - rewrite !(has_char_cons c x). intros [?|?]; auto.
Qed.

Lemma has_char_strip c s : has_char c (strip s) → has_char c s.
Proof. unfold strip. by intros ?%has_char_lstrip%has_char_rstrip. Qed.

Lemma strip_only_space s : only_space s = true → strip s = "".
Proof.
  unfold strip. induction s as [|c s IH]; simpl; [done|].
  intros [Hc Hs]%andb_true_iff. specialize (IH Hs).
  destruct (rstrip s) as [|y r] eqn:Hr.
  - by rewrite Hc.
  - simpl. by rewrite Hc.
Qed.

Lemma only_space_pieces sep s w :
  only_space s = true → w ∈ split_on sep s → only_space w = true.
Proof.
  revert w. induction s as [|c s IH]; intros w; simpl.
  - by intros _ ->%list_elem_of_singleton.
  - intros [Hc Hs]%andb_true_iff.
    destruct (Ascii.eqb c sep).
    + intros [->|?]%elem_of_cons; [done|by apply IH].
    + pose proof (split_on_nonempty sep s).
      destruct (split_on sep s) as [|w' ws]; [done|].
      intros [->|?]%elem_of_cons.
      * simpl. rewrite Hc. by apply IH; [|left].
      * apply IH; [done|by right].
Qed.

Lemma filter_all {A} (P : A → Prop) `{!∀ x, Decision (P x)} (l : list A) :
  Forall P l → filter P l = l.
Proof.
  induction 1 as [|x l Hx _ IH]; [done|].
  by rewrite filter_cons_True, IH.
Qed.

Lemma fmap_id_on {A} (f : A → A) (l : list A) :
  Forall (λ x, f x = x) l → f <$> l = l.
Proof.
  induction 1 as [|x l Hx _ IH]; [done|]. csimpl. by rewrite Hx, IH.
Qed.

(** X6. Showing a dictionary in the editor and pressing "Update Dictionary"
    without editing gives the dictionary back, provided its terms are
    non-empty, trimmed and free of newlines; and the terms either button
    builds are always of that kind. *)
Theorem update_unedited_is_identity :
  (∀ text t, t ∈ terms_of_text text →
             t ≠ "" ∧ trimmed t ∧ ¬ has_char "010" t)
  ∧ (∀ (dictionaries : gmap string (gset string)) selected_dict terms,
       dictionaries !! selected_dict = Some terms →
       (∀ t, t ∈ terms → t ≠ "" ∧ trimmed t ∧ ¬ has_char "010" t) →
       terms_of_text (terms_text terms) = terms
       ∧ update_dictionary dictionaries selected_dict (terms_text terms)
         = dictionaries).
Proof.
  split.
  - intros text t Ht. destruct (terms_of_text_ok _ _ Ht) as [? ?].
    split_and!; [done..|].
    apply elem_of_terms_of_text in Ht as (raw & Hraw & _ & ->).
    intros ?%has_char_strip. by apply (split_on_pieces _ _ _ Hraw).
  - intros dictionaries d terms Hd Hok.
    assert (terms_of_text (terms_text terms) = terms) as Hround.
    { unfold terms_of_text, terms_text, LF.
      destruct (elements terms) as [|w l] eqn:Hel.
      - apply elements_empty_inv in Hel.
        apply leibniz_equiv in Hel. by subst terms.
      - assert (Forall (λ t, t ≠ "" ∧ trimmed t ∧ ¬ has_char "010" t)
                  (w :: l)) as Hall.
        { rewrite <-Hel. apply Forall_forall.
          intros t Ht%elem_of_elements. by apply Hok. }
        rewrite split_on_join; [| |done].
        + rewrite filter_all, fmap_id_on.
          * by rewrite <-Hel, list_to_set_elements_L.
          * eapply Forall_impl; [done|]. by intros t (_ & ? & _).
          * eapply Forall_impl; [done|]. intros t (? & Htrim & _).
            by rewrite Htrim.
        + eapply Forall_impl; [done|]. by intros t (_ & _ & ?). }
    split; [done|]. unfold update_dictionary. rewrite Hround.
    by apply insert_id.
Qed.

Lemma update_unedited_is_identity_witness :
  terms_of_text (terms_text {["vip"; "members only"]})
  = {["vip"; "members only"]}
  ∧ update_dictionary {["d" := {["vip"; "members only"]}]} "d"
      (terms_text {["vip"; "members only"]})
    = {["d" := {["vip"; "members only"]}]}.
Proof.
  apply (proj2 update_unedited_is_identity
           {["d" := {["vip"; "members only"]}]} "d"
           {["vip"; "members only"]}).
  - reflexivity.
  - intros t Ht. set_unfold in Ht. destruct Ht as [->| ->].
    + split_and!; [done|reflexivity|].
      rewrite <-contains_char. by vm_compute.
    + split_and!; [done|reflexivity|].
      rewrite <-contains_char. by vm_compute.
Defined.

(** X7. "Add Dictionary" does nothing when the name or the terms box is
    empty; otherwise it stores the terms under the name even when a
    dictionary of that name exists, replacing it, and leaves every other
    dictionary alone.  A terms box holding only whitespace passes the check
    and stores a dictionary with no term. *)
Theorem add_dictionary_cases
    (dictionaries : gmap string (gset string)) new_dict_name new_dict_terms :
  (new_dict_name = "" ∨ new_dict_terms = "" →
   add_dictionary dictionaries new_dict_name new_dict_terms = dictionaries)
  ∧ (new_dict_name ≠ "" → new_dict_terms ≠ "" →
     add_dictionary dictionaries new_dict_name new_dict_terms
       !! new_dict_name = Some (terms_of_text new_dict_terms)
     ∧ (∀ other, other ≠ new_dict_name →
          add_dictionary dictionaries new_dict_name new_dict_terms !! other
          = dictionaries !! other)
     ∧ (only_space new_dict_terms = true →
        add_dictionary dictionaries new_dict_name new_dict_terms
          !! new_dict_name = Some ∅)).
Proof.
  unfold add_dictionary. split.
  - intros [->| ->]; simpl; [done|]. by rewrite andb_false_r.
  - intros Hname Hterms.
    rewrite !bool_decide_false by done. simpl. split_and!.
    + apply lookup_insert_eq.
    + intros other Hother. by apply lookup_insert_ne.
    + intros Hspace. rewrite lookup_insert_eq. f_equal.
      apply set_eq. intros t. split; [|by intros ?%not_elem_of_empty].
      intros (raw & Hraw & Hne & _)%elem_of_terms_of_text.
      destruct Hne. apply strip_only_space.
      by apply (only_space_pieces "010" new_dict_terms).
Qed.

Lemma add_dictionary_cases_witness :
  add_dictionary DEFAULT_DICTIONARIES "urgency_marketing" "  "
    !! "urgency_marketing" = Some (terms_of_text "  ")
  ∧ (∀ other, other ≠ "urgency_marketing" →
       add_dictionary DEFAULT_DICTIONARIES "urgency_marketing" "  " !! other
       = DEFAULT_DICTIONARIES !! other)
  ∧ (only_space "  " = true →
     add_dictionary DEFAULT_DICTIONARIES "urgency_marketing" "  "
       !! "urgency_marketing" = Some ∅).
Proof.
  apply (proj2 (add_dictionary_cases DEFAULT_DICTIONARIES
                  "urgency_marketing" "  ")); discriminate.
Defined.

(** ** More on [classify_text] *)

Lemma occurs_in_empty_term text : occurs_in "" text.
Proof. by exists "", "", text. Qed.

Lemma occurs_in_empty_text term : occurs_in term "" → term = "".
Proof.
  intros ([|??] & [|??] & post & Heq & Hlow); try done.
  symmetry in Hlow. by apply lower_empty_inv in Hlow.
Qed.

(** Being a substring is transitive. *)
Lemma contains_trans a b c :
  contains a b = true → contains b c = true → contains a c = true.
Proof.
  rewrite !contains_spec. intros (p1 & q1 & ->) (p2 & q2 & ->).
  exists (p2 +:+ p1), (q1 +:+ q2). by rewrite !app_assoc_str.
Qed.

(** The test of the inner loop, as the code writes it. *)
Lemma elem_of_matching_terms_test term text_lower terms :
  term ∈ matching_terms text_lower terms
  ↔ term ∈ terms ∧ contains (lower term) text_lower = true.
Proof.
  unfold matching_terms.
  by rewrite list_elem_of_filter, elem_of_elements, (comm and).
Qed.

Lemma length_filter_mono {A} (P1 P2 : A → Prop)
    `{!∀ x, Decision (P1 x), !∀ x, Decision (P2 x)} (l : list A) :
  (∀ x, P1 x → P2 x) → (length (filter P1 l) ≤ length (filter P2 l))%nat.
Proof.
  intros Himp. induction l as [|x l IH]; [done|].
  rewrite !filter_cons.
  destruct (decide (P1 x)) as [H1|H1], (decide (P2 x)) as [H2|H2]; simpl;
    try lia. by destruct H2; apply Himp.
Qed.

(** X8. For a string text the result has one entry per dictionary given
    and no other, and each entry's count is the length of its match list,
    at least 0 and at most the number of terms of the dictionary. *)
Theorem classify_text_entries (text : string)
    (dictionaries : gmap string (gset string)) :
  ∃ results,
    classify_text (VStr text) dictionaries = Ok results
    ∧ dom results = dom dictionaries
    ∧ ∀ dict_name r terms,
        results !! dict_name = Some r →
        dictionaries !! dict_name = Some terms →
        count r = Z.of_nat (length (matches r))
        ∧ (0 ≤ count r ≤ Z.of_nat (size terms))%Z.
Proof.
  eexists. split; [apply classify_text_str|]. split; [apply dom_fmap_L|].
  intros d r terms. rewrite lookup_fmap. intros Hr Hd. rewrite Hd in Hr.
  simpl in Hr. injection Hr as <-. cbn [result_of count matches].
  split; [done|]. split; [lia|]. apply inj_le.
  unfold matching_terms, size, set_size. simpl. apply length_filter.
Qed.

Lemma classify_text_entries_witness :
  count (result_of (matching_terms (lower "VIP only") {["vip"; "gold"]}))
  = Z.of_nat (length (matches (result_of (matching_terms (lower "VIP only")
                                            {["vip"; "gold"]}))))
  ∧ (0 ≤ count (result_of (matching_terms (lower "VIP only")
                             {["vip"; "gold"]}))
     ≤ Z.of_nat (size ({["vip"; "gold"]} : gset string)))%Z.
Proof.
  destruct (classify_text_entries "VIP only" {["d" := {["vip"; "gold"]}]})
    as (results & Hcl & _ & Hall).
  apply (Hall "d" _ {["vip"; "gold"]}); [|reflexivity].
  rewrite classify_text_str in Hcl. injection Hcl as <-.
  by rewrite lookup_fmap, lookup_singleton_eq.
Defined.

(** X9. A wider text never loses a match: when the lowercased [text]
    occurs in the lowercased [text'], every term matched in [text] is
    matched in [text'], so each count can only grow and a dictionary that
    was present stays present. *)
Theorem classify_text_monotone (text text' : string)
    (dictionaries : gmap string (gset string)) dict_name terms :
  dictionaries !! dict_name = Some terms →
  contains (lower text) (lower text') = true →
  ∃ results results' r r',
    classify_text (VStr text) dictionaries = Ok results
    ∧ classify_text (VStr text') dictionaries = Ok results'
    ∧ results !! dict_name = Some r ∧ results' !! dict_name = Some r'
    ∧ (∀ term, term ∈ matches r → term ∈ matches r')
    ∧ (count r ≤ count r')%Z
    ∧ (present r = true → present r' = true).
Proof.
  intros Hd Hin. eexists _, _, _, _.
  split; [apply classify_text_str|]. split; [apply classify_text_str|].
  rewrite !lookup_fmap, Hd. split; [done|]. split; [done|].
  cbn [result_of count matches present].
  assert (length (matching_terms (lower text) terms)
          ≤ length (matching_terms (lower text') terms))%nat
    as Hlen.
  { unfold matching_terms. apply length_filter_mono. intros term Hterm.
    by apply (contains_trans _ (lower text)). }
  split_and!.
  - intros term. rewrite !elem_of_matching_terms_test.
    intros [? ?]. split; [done|]. by apply (contains_trans _ (lower text)).
  - lia.
  - rewrite !Z.gtb_gt. lia.
Qed.

Lemma classify_text_monotone_witness :
  ∃ results results' r r',
    classify_text (VStr "vip") {["d" := {["vip"; "deal"]}]} = Ok results
    ∧ classify_text (VStr "A VIP deal") {["d" := {["vip"; "deal"]}]}
      = Ok results'
    ∧ results !! "d" = Some r ∧ results' !! "d" = Some r'
    ∧ (∀ term, term ∈ matches r → term ∈ matches r')
    ∧ (count r ≤ count r')%Z
    ∧ (present r = true → present r' = true).
Proof.
  apply (classify_text_monotone "vip" "A VIP deal"
           {["d" := {["vip"; "deal"]}]} "d" {["vip"; "deal"]}).
  - reflexivity.
  - reflexivity.
Defined.

(** X10. Terms are matched one by one, so when the lowercased form of one
    term of a dictionary occurs in the lowercased form of another (as
    "limited" does in "limited time"), the first is matched whenever the
    second is: such a text counts both. *)
Theorem classify_text_nested_terms (text : string)
    (dictionaries : gmap string (gset string)) dict_name terms inner outer :
  dictionaries !! dict_name = Some terms →
  inner ∈ terms → outer ∈ terms → inner ≠ outer →
  contains (lower inner) (lower outer) = true →
  ∃ results r,
    classify_text (VStr text) dictionaries = Ok results
    ∧ results !! dict_name = Some r
    ∧ (outer ∈ matches r → inner ∈ matches r ∧ (2 ≤ count r)%Z).
Proof.
  intros Hd Hinner Houter Hne Hocc. eexists _, _.
  split; [apply classify_text_str|]. rewrite lookup_fmap, Hd.
  split; [done|]. cbn [result_of count matches].
  intros Hout. pose proof Hout as [_ Hout']%elem_of_matching_terms_test.
  assert (inner ∈ matching_terms (lower text) terms) as Hin.
  { apply elem_of_matching_terms_test. split; [done|].
    by apply (contains_trans _ (lower outer)). }
  split; [done|].
  pose proof (matching_terms_NoDup (lower text) terms) as Hnd.
  destruct (matching_terms (lower text) terms) as [|x [|y l]]; simpl.
  - by apply elem_of_nil in Hin.
  - apply list_elem_of_singleton in Hin, Hout. congruence.
  - lia.
Qed.

Lemma classify_text_nested_terms_witness :
  ∃ results r,
    classify_text (VStr "Limited time only!")
      {["d" := {["limited"; "limited time"]}]} = Ok results
    ∧ results !! "d" = Some r
    ∧ ("limited time" ∈ matches r
       → "limited" ∈ matches r ∧ (2 ≤ count r)%Z).
Proof.
  apply (classify_text_nested_terms "Limited time only!"
           {["d" := {["limited"; "limited time"]}]} "d"
           {["limited"; "limited time"]} "limited" "limited time").
  - reflexivity.
  - set_solver.
  - set_solver.
  - discriminate.
  - reflexivity.
Defined.

(** X11. The two empty cases.  An empty term matches every text, so a
    dictionary holding one is present on every string; and the empty text
    matches nothing but an empty term, so without one its count is 0. *)
Theorem classify_text_empty_cases
    (dictionaries : gmap string (gset string)) dict_name terms :
  dictionaries !! dict_name = Some terms →
  (∀ text : string, "" ∈ terms →
     ∃ results r,
       classify_text (VStr text) dictionaries = Ok results
       ∧ results !! dict_name = Some r
       ∧ "" ∈ matches r ∧ present r = true)
  ∧ ("" ∉ terms →
     ∃ results,
       classify_text (VStr "") dictionaries = Ok results
       ∧ results !! dict_name
         = Some {| count := 0; matches := []; present := false |}).
Proof.
  intros Hd. split.
  - intros text Hempty. eexists _, _.
    split; [apply classify_text_str|]. rewrite lookup_fmap, Hd.
    split; [done|]. cbn [result_of matches present].
    assert ("" ∈ matching_terms (lower text) terms) as Hin.
    { apply elem_of_matching_terms. split; [done|apply occurs_in_empty_term]. }
    split; [done|]. rewrite Z.gtb_gt.
    destruct (matching_terms (lower text) terms);
      [by apply elem_of_nil in Hin|simpl; lia].
  - intros Hno. eexists. split; [apply classify_text_str|].
    rewrite lookup_fmap, Hd. simpl. do 2 f_equal.
    assert (matching_terms "" terms = []) as ->; [|done].
    destruct (matching_terms "" terms) as [|t l] eqn:Hm; [done|].
    assert (t ∈ matching_terms (lower "") terms) as Hin by (simpl; rewrite Hm; left).
    apply elem_of_matching_terms in Hin as [Ht ->%occurs_in_empty_text].
    done.
Qed.

Lemma classify_text_empty_cases_witness :
  ∃ results,
    classify_text (VStr "") {["d" := {["vip"; "gold"]}]} = Ok results
    ∧ results !! "d" = Some {| count := 0; matches := []; present := false |}.
Proof.
  refine (proj2 (classify_text_empty_cases {["d" := {["vip"; "gold"]}]}
                   "d" {["vip"; "gold"]} _) _).
  - reflexivity.
  - set_solver.
Defined.

(** ** The columns of a classified table *)

Lemma list_ascii_of_string_app a b :
  list_ascii_of_string (a +:+ b)
  = (list_ascii_of_string a ++ list_ascii_of_string b)%list.
Proof. induction a as [|c a IH]; [done|]. rewrite app_cons. simpl. by rewrite IH. Qed.

Lemma list_ascii_of_string_inj a b :
  list_ascii_of_string a = list_ascii_of_string b → a = b.
Proof.
  intros H. by rewrite <-(string_of_list_ascii_of_string a),
    <-(string_of_list_ascii_of_string b), H.
Qed.

(** No two of the names [d_count], [d_present], [d_matches] coincide unless
    they come from the same dictionary and the same suffix. *)
Lemma derived_name_inj d d' s s' :
  s ∈ ["_count"; "_present"; "_matches"] →
  s' ∈ ["_count"; "_present"; "_matches"] →
  d +:+ s = d' +:+ s' → d = d' ∧ s = s'.
Proof.
  intros Hs Hs' Heq.
  apply (f_equal list_ascii_of_string) in Heq.
  rewrite !list_ascii_of_string_app in Heq.
  apply (f_equal reverse) in Heq. rewrite !reverse_app in Heq.
  rewrite !elem_of_cons, !elem_of_nil in Hs, Hs'.
  destruct Hs as [->|[->|[->|[]]]], Hs' as [->|[->|[->|[]]]];
    cbn in Heq; simplify_eq;
    (split; [|done]); by apply list_ascii_of_string_inj.
Qed.

Lemma add_dict_columns_get classifications cols keys k :
  k ∈ keys →
  col_get (k +:+ "_count") (foldl (add_dict_columns classifications) cols keys)
  = Some ((λ x, VInt (get_count k x)) <$> classifications)
  ∧ col_get (k +:+ "_present")
      (foldl (add_dict_columns classifications) cols keys)
    = Some ((λ x, VBool (get_present k x)) <$> classifications)
  ∧ col_get (k +:+ "_matches")
      (foldl (add_dict_columns classifications) cols keys)
    = Some ((λ x, VStr (join ", " (get_matches k x))) <$> classifications).
Proof.
  assert (∀ s s', s ∈ ["_count"; "_present"; "_matches"] →
                  s' ∈ ["_count"; "_present"; "_matches"] →
                  s ≠ s' → ∀ d d', d +:+ s ≠ d' +:+ s') as Hsuf.
  { intros s s' Hs Hs' Hne d d' Heq.
    by destruct (derived_name_inj d d' s s' Hs Hs' Heq). }
  assert (∀ s, s ∈ ["_count"; "_present"; "_matches"] →
               ∀ d d', d ≠ d' → d +:+ s ≠ d' +:+ s) as Hdict.
  { intros s Hs d d' Hne Heq.
    by destruct (derived_name_inj d d' s s Hs Hs Heq). }
  assert ("_count" ∈ ["_count"; "_present"; "_matches"]) as H1 by by left.
  assert ("_present" ∈ ["_count"; "_present"; "_matches"]) as H2
    by by right; left.
  assert ("_matches" ∈ ["_count"; "_present"; "_matches"]) as H3
    by by right; right; left.
  revert cols. induction keys as [|k' keys IH] using rev_ind; intros cols Hk.
  { by apply elem_of_nil in Hk. }
  rewrite foldl_snoc. unfold add_dict_columns at 1 3 5.
  destruct (decide (k' = k)) as [->|Hne].
  - split_and!.
    + rewrite !col_get_set_ne by by apply Hsuf.
      apply col_get_set_eq.
    + rewrite col_get_set_ne by by apply Hsuf.
      apply col_get_set_eq.
    + apply col_get_set_eq.
  - apply elem_of_app in Hk as [Hk|Hk%list_elem_of_singleton]; [|done].
    destruct (IH cols Hk) as (Hc & Hp & Hm).
    rewrite <-Hc, <-Hp, <-Hm.
    split_and!; rewrite !col_get_set_ne; try done;
      first [by apply Hdict|by apply Hsuf].
Qed.

Lemma apply_raise {A} (f : value → res A) series e :
  apply f series = Raise e → ∃ x, x ∈ series ∧ f x = Raise e.
Proof.
  induction series as [|x series IH]; [done|].
  cbn [apply]. unfold mbind, res_bind.
  destruct (f x) as [y|e'] eqn:Hx.
  - destruct (apply f series) as [ys|e'']; [done|].
    intros [= <-]. destruct IH as (x' & ? & ?); [done|].
    exists x'. split; [by right|done].
  - intros [= <-]. exists x. split; [by left|done].
Qed.

Lemma apply_ok_all {A} (f : value → res A) series ys x :
  apply f series = Ok ys → x ∈ series → ∃ y, f x = Ok y.
Proof.
  intros Happly (i & Hi)%list_elem_of_lookup_1.
  destruct (apply_lookup f series ys i x Happly Hi) as (y & _ & ?). eauto.
Qed.

Lemma classify_text_raise x (dictionaries : gmap string (gset string)) e :
  classify_text x dictionaries = Raise e →
  e = AttributeError ∧ ¬ text_or_missing x.
Proof.
  unfold text_or_missing, missing.
  destruct x; try done; unfold classify_text; simpl; intros [= <-];
    (split; [done|]); intros [[?|?]|[? ?]]; done.
Qed.

Lemma classify_text_ok_inv x (dictionaries : gmap string (gset string)) y :
  classify_text x dictionaries = Ok y → text_or_missing x.
Proof.
  unfold text_or_missing, missing. destruct x; try done; eauto.
Qed.

(** X12. How [process_dataframe] fails on a table whose column names are
    distinct: with [KeyError] exactly when the text column does not exist,
    with [AttributeError] exactly when it exists and holds a cell that is
    neither a string nor missing, and in no other way; either failure
    happens before the table is copied, so the store is left exactly as it
    was. *)
Theorem process_dataframe_failures (σ : store) df t text_column
    (dictionaries : gmap string (gset string)) :
  σ !! df = Some t →
  distinct_columns t →
  ∃ r σ',
    process_dataframe df text_column dictionaries σ = (r, σ')
    ∧ (r = Raise KeyError ↔ col_get text_column (df_columns t) = None)
    ∧ (r = Raise AttributeError
       ↔ ∃ texts x, col_get text_column (df_columns t) = Some texts
                    ∧ x ∈ texts ∧ ¬ text_or_missing x)
    ∧ (∀ e, r = Raise e → (e = KeyError ∨ e = AttributeError) ∧ σ' = σ).
Proof.
  intros Hdf _. rewrite (process_dataframe_run _ _ t) by done.
  destruct (col_get text_column (df_columns t)) as [texts|] eqn:Hcol.
  2:{ eexists _, _. split; [done|]. split_and!; [done| |naive_solver].
      split; [done|]. by intros (? & ? & ? & _). }
  destruct (apply _ texts) as [cls|e] eqn:Happly; eexists _, _;
    (split; [done|]); split_and!; try done.
  - split; [done|]. intros (texts' & x & [= <-] & Hx & Hbad).
    destruct (apply_ok_all _ _ _ _ Happly Hx) as [y Hy].
    destruct Hbad. by eapply classify_text_ok_inv.
  - split; [|done]. intros [= ->].
    by apply apply_raise in Happly as (x & _ & [? _]%classify_text_raise).
  - apply apply_raise in Happly as (x & Hx & [-> Hbad]%classify_text_raise).
    split; [|done]. intros _. by exists texts, x.
  - intros e' [= <-].
    apply apply_raise in Happly as (x & Hx & [-> Hbad]%classify_text_raise).
    auto.
Qed.

Lemma process_dataframe_failures_witness :
  ∃ r σ',
    process_dataframe 1%positive "text" DEFAULT_DICTIONARIES
      {[1%positive :=
          {| df_index := 2;
             df_columns := [("id", [VInt 1; VInt 2]);
                            ("text", [VBool true; VNaN])] |}]} = (r, σ')
    ∧ (r = Raise KeyError
       ↔ col_get "text" [("id", [VInt 1; VInt 2]);
                         ("text", [VBool true; VNaN])] = None)
    ∧ (r = Raise AttributeError
       ↔ ∃ texts x, col_get "text" [("id", [VInt 1; VInt 2]);
                                    ("text", [VBool true; VNaN])]
                    = Some texts
                    ∧ x ∈ texts ∧ ¬ text_or_missing x)
    ∧ (∀ e, r = Raise e →
         (e = KeyError ∨ e = AttributeError)
         ∧ σ' = {[1%positive :=
                    {| df_index := 2;
                       df_columns := [("id", [VInt 1; VInt 2]);
                                      ("text", [VBool true; VNaN])] |}]}).
Proof.
  apply (process_dataframe_failures
           {[1%positive :=
               {| df_index := 2;
                  df_columns := [("id", [VInt 1; VInt 2]);
                                 ("text", [VBool true; VNaN])] |}]}
           1%positive
           {| df_index := 2;
              df_columns := [("id", [VInt 1; VInt 2]);
                             ("text", [VBool true; VNaN])] |}
           "text" DEFAULT_DICTIONARIES).
  - reflexivity.
  - unfold distinct_columns. apply (bool_decide_unpack _). by vm_compute.
Defined.

Lemma classify_text_present_count x
    (dictionaries : gmap string (gset string)) cls dict_name :
  classify_text x dictionaries = Ok cls →
  get_present dict_name cls = true ↔ (get_count dict_name cls > 0)%Z.
Proof.
  destruct (isna x) eqn:Hna.
  - rewrite classify_text_missing by done. by intros [= <-].
  - destruct x; try done. rewrite classify_text_str. intros [= <-].
    unfold get_present, get_count. rewrite lookup_fmap.
    destruct (dictionaries !! dict_name); simpl; [|done].
    by rewrite Z.gtb_gt.
Qed.

(** X13. The cells [process_dataframe] writes.  When the text column holds
    only strings and missing values, the result has, for every dictionary
    [d], the columns [d_count], [d_present] and [d_matches], and in each row
    they hold the count, the presence flag and the ", "-joined matches of
    [classify_text] on that row's text; in every row the flag is true
    exactly when the count is above 0. *)
Theorem process_dataframe_cells (σ : store) df t text_column texts
    (dictionaries : gmap string (gset string)) :
  σ !! df = Some t →
  col_get text_column (df_columns t) = Some texts →
  Forall text_or_missing texts →
  ∃ out σ' t',
    process_dataframe df text_column dictionaries σ = (Ok out, σ')
    ∧ σ' !! out = Some t'
    ∧ ∀ d, d ∈ dom dictionaries →
        ∃ counts presents joined,
          col_get (d +:+ "_count") (df_columns t') = Some counts
          ∧ col_get (d +:+ "_present") (df_columns t') = Some presents
          ∧ col_get (d +:+ "_matches") (df_columns t') = Some joined
          ∧ ∀ i x, texts !! i = Some x →
              ∃ cls,
                classify_text x dictionaries = Ok cls
                ∧ counts !! i = Some (VInt (get_count d cls))
                ∧ presents !! i = Some (VBool (get_present d cls))
                ∧ joined !! i = Some (VStr (join ", " (get_matches d cls)))
                ∧ (get_present d cls = true ↔ (get_count d cls > 0)%Z).
Proof.
  intros Hdf Hcol Hall. rewrite (process_dataframe_run _ _ t), Hcol by done.
  destruct (apply_total (λ x, classify_text x dictionaries) texts)
    as [classifications Happly].
  { eapply Forall_impl; [done|]. intros x. apply classify_text_total. }
  rewrite Happly. eexists _, _, _. split; [done|].
  split; [apply lookup_insert_eq|]. cbn [df_columns].
  intros d [terms Hd]%elem_of_dom.
  assert (d ∈ (map_to_list dictionaries).*1) as Hkey.
  { apply list_elem_of_fmap. exists (d, terms).
    split; [done|]. by apply elem_of_map_to_list. }
  destruct (add_dict_columns_get classifications (df_columns t) _ d Hkey)
    as (Hc & Hp & Hm).
  eexists _, _, _. split_and!; [done..|].
  intros i x Hx.
  destruct (apply_lookup _ _ _ _ _ Happly Hx) as (cls & Hcls & Hok).
  exists cls. rewrite !list_lookup_fmap, Hcls. split_and!; [done..|].
  by apply (classify_text_present_count x dictionaries).
Qed.

Lemma process_dataframe_cells_witness :
  ∃ out σ' t',
    process_dataframe 1%positive "text" {["d" := {["vip"; "bad"]}]}
      {[1%positive := example_table]} = (Ok out, σ')
    ∧ σ' !! out = Some t'
    ∧ ∀ d, d ∈ dom ({["d" := {["vip"; "bad"]}]} : gmap string (gset string)) →
        ∃ counts presents joined,
          col_get (d +:+ "_count") (df_columns t') = Some counts
          ∧ col_get (d +:+ "_present") (df_columns t') = Some presents
          ∧ col_get (d +:+ "_matches") (df_columns t') = Some joined
          ∧ ∀ i x, example_texts !! i = Some x →
              ∃ cls,
                classify_text x {["d" := {["vip"; "bad"]}]} = Ok cls
                ∧ counts !! i = Some (VInt (get_count d cls))
                ∧ presents !! i = Some (VBool (get_present d cls))
                ∧ joined !! i = Some (VStr (join ", " (get_matches d cls)))
                ∧ (get_present d cls = true ↔ (get_count d cls > 0)%Z).
Proof.
  apply (process_dataframe_cells {[1%positive := example_table]} 1%positive
           example_table "text" example_texts {["d" := {["vip"; "bad"]}]}).
  - reflexivity.
  - reflexivity.
  - constructor; [right; by exists "Good bad BAD"|].
    constructor; [left; by right|constructor].
Defined.

Lemma elem_of_col_set_names name n series cols :
  name ∈ (col_set n series cols).*1 ↔ name ∈ cols.*1 ∨ name = n.
Proof.
  rewrite col_set_names, elem_of_app.
  destruct (decide (n ∈ cols.*1)).
  - rewrite elem_of_nil. naive_solver.
  - rewrite list_elem_of_singleton. naive_solver.
Qed.

Lemma col_get_None name cols : col_get name cols = None ↔ name ∉ cols.*1.
Proof.
  induction cols as [|[n s] cols IH]; csimpl.
  - split; [intros _ []%elem_of_nil|done].
  - rewrite not_elem_of_cons. destruct (decide (n = name)) as [->|?].
    + naive_solver.
    + rewrite IH. naive_solver.
Qed.

Lemma add_dict_columns_names classifications cols keys name :
  name ∈ (foldl (add_dict_columns classifications) cols keys).*1
  ↔ name ∈ cols.*1
    ∨ ∃ k, k ∈ keys
           ∧ name ∈ [k +:+ "_count"; k +:+ "_present"; k +:+ "_matches"].
Proof.
  revert cols. induction keys as [|k keys IH]; intros cols; cbn [foldl].
  - split; [by left|]. by intros [?|(? & []%elem_of_nil & _)].
  - rewrite IH. unfold add_dict_columns.
    rewrite !elem_of_col_set_names. setoid_rewrite elem_of_cons.
    setoid_rewrite elem_of_cons. setoid_rewrite elem_of_cons.
    setoid_rewrite elem_of_nil. naive_solver.
Qed.

(** X14. [process_dataframe] adds the derived columns of the dictionaries
    it was given and nothing else: a name is a column of the result exactly
    when it is a column of the input or one of [d_count], [d_present],
    [d_matches] for a dictionary [d] of the call.  Reading any other column
    of the result, such as that of a dictionary added after the
    classification, is a [KeyError]. *)
Theorem process_dataframe_column_names (σ : store) df t text_column
    (dictionaries : gmap string (gset string)) out σ' :
  σ !! df = Some t →
  process_dataframe df text_column dictionaries σ = (Ok out, σ') →
  ∃ t', σ' !! out = Some t'
        ∧ (∀ name, name ∈ (df_columns t').*1
                   ↔ name ∈ (df_columns t).*1
                     ∨ classifier_columns dictionaries name)
        ∧ (∀ name, name ∉ (df_columns t).*1 →
                   ¬ classifier_columns dictionaries name →
                   df_getitem out name σ' = (Raise KeyError, σ')).
Proof.
  intros Hdf. rewrite (process_dataframe_run _ _ t) by done.
  destruct (col_get text_column (df_columns t)) as [texts|]; [|done].
  destruct (apply _ texts) as [cls|]; [|done]. intros [= <- <-].
  eexists. split; [apply lookup_insert_eq|].
  assert (∀ name,
            name ∈ (foldl (add_dict_columns cls) (df_columns t)
                      (map_to_list dictionaries).*1).*1
            ↔ name ∈ (df_columns t).*1 ∨ classifier_columns dictionaries name)
    as Hnames.
  { intros name. rewrite add_dict_columns_names. unfold classifier_columns.
    split; intros [?|(k & Hk & ?)]; auto; right; exists k; (split; [|done]).
    - apply list_elem_of_fmap in Hk as ([k' terms] & -> & Hk).
      apply elem_of_map_to_list in Hk. by apply elem_of_dom.
    - apply elem_of_dom in Hk as [terms Hk].
      apply list_elem_of_fmap. exists (k, terms).
      split; [done|]. by apply elem_of_map_to_list. }
  split; [done|]. intros name Hno Hnd.
  erewrite df_getitem_run by apply lookup_insert_eq. cbn [df_columns].
  rewrite (proj2 (col_get_None _ _)); [done|]. rewrite Hnames. tauto.
Qed.

Lemma process_dataframe_column_names_witness :
  ∃ t', (snd (process_dataframe 1%positive "text" {["d" := {["vip"]}]}
                {[1%positive := example_table]}))
          !! 2%positive = Some t'
        ∧ (∀ name, name ∈ (df_columns t').*1
                   ↔ name ∈ (df_columns example_table).*1
                     ∨ classifier_columns {["d" := {["vip"]}]} name)
        ∧ (∀ name, name ∉ (df_columns example_table).*1 →
                   ¬ classifier_columns {["d" := {["vip"]}]} name →
                   df_getitem 2%positive name
                     (snd (process_dataframe 1%positive "text"
                             {["d" := {["vip"]}]}
                             {[1%positive := example_table]}))
                   = (Raise KeyError,
                      snd (process_dataframe 1%positive "text"
                             {["d" := {["vip"]}]}
                             {[1%positive := example_table]}))).
Proof.
  apply (process_dataframe_column_names {[1%positive := example_table]}
           1%positive example_table "text" {["d" := {["vip"]}]}).
  - reflexivity.
  - reflexivity.
Defined.

(** ** More on [process_sentiment_data] *)

Lemma col_set_same name series cols :
  col_get name cols = Some series → col_set name series cols = cols.
Proof.
  induction cols as [|[n s] cols IH]; simpl; [done|].
  destruct (decide (n = name)) as [->|?].
  - by intros [= ->].
  - intros ?. by rewrite IH.
Qed.

(** X15. Analysing a result again changes nothing: run on the table it
    returned, with the same dictionary and a text column that is not itself
    a derived column, [process_sentiment_data] returns a new table with the
    very same columns and cells. *)
Theorem process_sentiment_data_rerun float_str (σ : store) df t text_column
    texts positive_words negative_words :
  σ !! df = Some t →
  col_get text_column (df_columns t) = Some texts →
  ¬ scorer_columns text_column →
  ∃ out1 σ1 out2 σ2 t1,
    process_sentiment_data float_str df text_column
      positive_words negative_words σ = (Ok out1, σ1)
    ∧ process_sentiment_data float_str out1 text_column
        positive_words negative_words σ1 = (Ok out2, σ2)
    ∧ out2 ≠ out1
    ∧ σ1 !! out1 = Some t1 ∧ σ2 !! out1 = Some t1 ∧ σ2 !! out2 = Some t1.
Proof.
  intros Hdf Hcol Hname. unfold scorer_columns in Hname.
  rewrite !not_elem_of_cons in Hname. destruct Hname as (Hs & Hl & _).
  pose proof (process_sentiment_data_run float_str σ df t text_column
                positive_words negative_words Hdf) as Hrun1.
  cbn zeta in Hrun1. rewrite Hcol in Hrun1.
  set (out1 := fresh (dom σ)) in Hrun1.
  set (t1 := {| df_index := df_index t; df_columns := _ |}) in Hrun1.
  set (σ1 := <[out1 := t1]> σ) in Hrun1.
  assert (σ1 !! out1 = Some t1) as H1 by apply lookup_insert_eq.
  pose proof (process_sentiment_data_run float_str σ1 out1 t1 text_column
                positive_words negative_words H1) as Hrun2.
  cbn zeta in Hrun2.
  assert (col_get text_column (df_columns t1) = Some texts) as Hcol1.
  { unfold t1. cbn [df_columns]. by rewrite !col_get_set_ne. }
  rewrite Hcol1 in Hrun2.
  assert (fresh (dom σ1) ≠ out1) as Hfresh.
  { apply fresh_other, elem_of_dom. eauto. }
  eexists out1, σ1, _, _, t1.
  split; [exact Hrun1|]. split; [exact Hrun2|]. split_and!.
  - done.
  - done.
  - by rewrite lookup_insert_ne.
  - rewrite lookup_insert_eq. f_equal. unfold t1 at 1 2 3.
    cbn [df_index df_columns]. unfold t1. f_equal.
    rewrite (col_set_same "sentiment_score").
    + apply col_set_same, col_get_set_eq.
    + rewrite col_get_set_ne by done. apply col_get_set_eq.
Qed.

Lemma process_sentiment_data_rerun_witness :
  ∃ out1 σ1 out2 σ2 t1,
    process_sentiment_data (λ _, "") 1%positive "text" {["good"]} {["bad"]}
      {[1%positive := example_table]} = (Ok out1, σ1)
    ∧ process_sentiment_data (λ _, "") out1 "text" {["good"]} {["bad"]} σ1
      = (Ok out2, σ2)
    ∧ out2 ≠ out1
    ∧ σ1 !! out1 = Some t1 ∧ σ2 !! out1 = Some t1 ∧ σ2 !! out2 = Some t1.
Proof.
  apply (process_sentiment_data_rerun (λ _, "")
           {[1%positive := example_table]} 1%positive example_table "text"
           example_texts {["good"]} {["bad"]}).
  - reflexivity.
  - reflexivity.
  - unfold scorer_columns. rewrite !not_elem_of_cons.
    split_and!; [discriminate..|apply not_elem_of_nil].
Defined.

(** X16. How [process_sentiment_data] ends on a table whose column names
    are distinct.  It fails exactly when the text column does not exist,
    always with [KeyError], and by then the copy has been made: the store
    holds one new table, equal to the input.  When it succeeds, the columns
    of the result are those of the input, in order, then [sentiment_score]
    and [sentiment_label], each only if the input had no column of that
    name. *)
Theorem process_sentiment_data_outcome float_str (σ : store) df t text_column
    positive_words negative_words :
  σ !! df = Some t →
  distinct_columns t →
  ∃ r σ',
    process_sentiment_data float_str df text_column
      positive_words negative_words σ = (r, σ')
    ∧ (r = Raise KeyError ↔ col_get text_column (df_columns t) = None)
    ∧ (∀ e, r = Raise e → e = KeyError ∧ σ' = <[fresh (dom σ) := t]> σ)
    ∧ (∀ out, r = Ok out →
         ∃ t', σ' !! out = Some t'
               ∧ distinct_columns t'
               ∧ (df_columns t').*1
                 = ((df_columns t).*1
                    ++ (if decide ("sentiment_score" ∈ (df_columns t).*1)
                        then [] else ["sentiment_score"])
                    ++ (if decide ("sentiment_label" ∈ (df_columns t).*1)
                        then [] else ["sentiment_label"]))%list).
Proof.
  intros Hdf Hnd.
  pose proof (process_sentiment_data_run float_str σ df t text_column
                positive_words negative_words Hdf) as Hrun.
  cbn zeta in Hrun.
  destruct (col_get text_column (df_columns t)) as [texts|];
    eexists _, _; (split; [exact Hrun|]); split_and!; try done.
  - intros out [= <-]. eexists. split; [apply lookup_insert_eq|].
    assert ((col_set "sentiment_label"
               ((λ x, VStr (label_of_score
                              (continuous_sentiment_score float_str x
                                 positive_words negative_words))) <$> texts)
               (col_set "sentiment_score"
                  ((λ x, VFloat (continuous_sentiment_score float_str x
                                   positive_words negative_words)) <$> texts)
                  (df_columns t))).*1
            = ((df_columns t).*1
               ++ (if decide ("sentiment_score" ∈ (df_columns t).*1)
                   then [] else ["sentiment_score"])
               ++ (if decide ("sentiment_label" ∈ (df_columns t).*1)
                   then [] else ["sentiment_label"]))%list) as Hnames.
    { rewrite !col_set_names, <-app_assoc. do 2 f_equal.
      destruct (decide ("sentiment_score" ∈ (df_columns t).*1)) as [Hs|Hs].
      + rewrite app_nil_r. done.
      + destruct (decide ("sentiment_label" ∈ (df_columns t).*1)) as [Hl|Hl].
        * rewrite decide_True; [done|]. apply elem_of_app. by left.
        * rewrite decide_False; [done|].
          rewrite elem_of_app, list_elem_of_singleton. by intros [?|?]. }
    split; [|exact Hnames].
    unfold distinct_columns in *. cbn [df_columns]. rewrite Hnames.
    apply NoDup_app. split; [done|].
    destruct (decide ("sentiment_score" ∈ (df_columns t).*1)) as [Hs|Hs],
      (decide ("sentiment_label" ∈ (df_columns t).*1)) as [Hl|Hl]; simpl.
    + split; [by intros ?? ?%elem_of_nil|constructor].
    + split; [by intros ?? ->%list_elem_of_singleton|].
      apply NoDup_singleton.
    + split; [by intros ?? ->%list_elem_of_singleton|].
      apply NoDup_singleton.
    + split.
      * intros x Hx [->|[->|[]%elem_of_nil]%elem_of_cons]%elem_of_cons; done.
      * apply NoDup_cons. split; [by intros ?%list_elem_of_singleton|].
        apply NoDup_singleton.
  - by intros e [= <-].
Qed.

Lemma process_sentiment_data_outcome_witness :
  ∃ r σ',
    process_sentiment_data (λ _, "") 1%positive "body" {["good"]} {["bad"]}
      {[1%positive := example_table]} = (r, σ')
    ∧ (r = Raise KeyError ↔ col_get "body" (df_columns example_table) = None)
    ∧ (∀ e, r = Raise e →
            e = KeyError
            ∧ σ' = <[fresh (dom ({[1%positive := example_table]} : store))
                       := example_table]> {[1%positive := example_table]})
    ∧ (∀ out, r = Ok out →
         ∃ t', σ' !! out = Some t'
               ∧ distinct_columns t'
               ∧ (df_columns t').*1
                 = ((df_columns example_table).*1
                    ++ (if decide ("sentiment_score"
                                     ∈ (df_columns example_table).*1)
                        then [] else ["sentiment_score"])
                    ++ (if decide ("sentiment_label"
                                     ∈ (df_columns example_table).*1)
                        then [] else ["sentiment_label"]))%list).
Proof.
  apply (process_sentiment_data_outcome (λ _, "")
           {[1%positive := example_table]} 1%positive example_table "body"
           {["good"]} {["bad"]}).
  - reflexivity.
  - unfold distinct_columns. apply (bool_decide_unpack _). by vm_compute.
Defined.

(** ** The results page of the sentiment app *)

Lemma eq_sum_labels {A} (f : A → string) (xs : list A) l :
  eq_sum ((λ x, VStr (f x)) <$> xs) l
  = Z.of_nat (length (filter (λ x, f x = l) xs)).
Proof.
  unfold eq_sum. f_equal. induction xs as [|x xs IH]; [done|].
  csimpl. rewrite !filter_cons. simpl.
  destruct (decide (f x = l)) as [Hl|Hl].
  - rewrite bool_decide_true by done.
    rewrite decide_True by done. simpl. by rewrite IH.
  - rewrite bool_decide_false by done.
    rewrite decide_False by done. done.
Qed.

Lemma label_of_score_cases q :
  label_of_score q = "Positive" ∨ label_of_score q = "Neutral"
  ∨ label_of_score q = "Negative".
Proof. unfold label_of_score. repeat destruct (Qltb _ _); auto. Qed.

Lemma three_labels_partition {A} (f : A → string) (xs : list A) :
  (∀ x, f x = "Positive" ∨ f x = "Neutral" ∨ f x = "Negative") →
  (length (filter (λ x, f x = "Positive") xs)
   + length (filter (λ x, f x = "Neutral") xs)
   + length (filter (λ x, f x = "Negative") xs) = length xs)%nat.
Proof.
  intros Hf. induction xs as [|x xs IH]; [done|].
  rewrite !filter_cons.
  destruct (Hf x) as [Hx|[Hx|Hx]]; rewrite Hx; simpl; lia.
Qed.

(** X17. The three counters of the results page add up to the number of
    rows: in the table [process_sentiment_data] returns, every row is
    counted by exactly one of "Positive", "Neutral" and "Negative". *)
Theorem summary_counts_partition float_str (σ : store) df t text_column texts
    positive_words negative_words :
  σ !! df = Some t →
  col_get text_column (df_columns t) = Some texts →
  ∃ out σ' t' labels,
    process_sentiment_data float_str df text_column
      positive_words negative_words σ = (Ok out, σ')
    ∧ σ' !! out = Some t'
    ∧ col_get "sentiment_label" (df_columns t') = Some labels
    ∧ (eq_sum labels "Positive" + eq_sum labels "Neutral"
       + eq_sum labels "Negative" = Z.of_nat (length texts))%Z.
Proof.
  intros Hdf Hcol.
  pose proof (process_sentiment_data_run float_str σ df t text_column
                positive_words negative_words Hdf) as Hrun.
  cbn zeta in Hrun. rewrite Hcol in Hrun.
  eexists _, _, _, _. split; [exact Hrun|].
  split; [apply lookup_insert_eq|]. cbn [df_columns].
  split; [apply col_get_set_eq|].
  rewrite !(eq_sum_labels
              (λ x, label_of_score (continuous_sentiment_score float_str x
                                      positive_words negative_words))).
  rewrite <-!Nat2Z.inj_add. f_equal. apply three_labels_partition.
  intros x. apply label_of_score_cases.
Qed.

Lemma summary_counts_partition_witness :
  ∃ out σ' t' labels,
    process_sentiment_data (λ _, "") 1%positive "text" {["good"]} {["bad"]}
      {[1%positive := example_table]} = (Ok out, σ')
    ∧ σ' !! out = Some t'
    ∧ col_get "sentiment_label" (df_columns t') = Some labels
    ∧ (eq_sum labels "Positive" + eq_sum labels "Neutral"
       + eq_sum labels "Negative" = Z.of_nat (length example_texts))%Z.
Proof.
  apply (summary_counts_partition (λ _, "") {[1%positive := example_table]}
           1%positive example_table "text" example_texts
           {["good"]} {["bad"]}).
  - reflexivity.
  - reflexivity.
Defined.

Lemma col_get_fmap (g : list value → list value) name cols :
  col_get name ((λ c, (c.1, g c.2)) <$> cols) = g <$> col_get name cols.
Proof.
  induction cols as [|[n s] cols IH]; csimpl; [done|].
  by destruct (decide (n = name)).
Qed.

Lemma mask_select_cell_is l labels :
  Forall (λ x, x = VStr l) (mask_select (cell_is l <$> labels) labels).
Proof.
  induction labels as [|x labels IH]; csimpl; [constructor|].
  destruct (cell_is l x) eqn:Hx; [|done]. constructor; [|done].
  destruct x; try done. simpl in Hx. by apply bool_decide_eq_true in Hx as ->.
Qed.

Lemma mask_select_length {A B} (mask : list bool) (xs : list A) (ys : list B) :
  length xs = length ys →
  length (mask_select mask xs) = length (mask_select mask ys).
Proof.
  revert xs ys. induction mask as [|b mask IH]; intros [|x xs] [|y ys];
    simpl; try done.
  intros [=]. destruct b; simpl; auto.
Qed.

Lemma mask_select_cell_is_length l labels :
  Z.of_nat (length (mask_select (cell_is l <$> labels) labels))
  = eq_sum labels l.
Proof.
  unfold eq_sum. f_equal. induction labels as [|x labels IH]; [done|].
  csimpl. rewrite filter_cons.
  destruct (cell_is l x) eqn:Hx.
  - rewrite decide_True by done. simpl. by rewrite IH.
  - rewrite decide_False by done. done.
Qed.

(** X18. The "Filter results" box.  "All" shows the table itself.  Any
    other choice needs the label column ([KeyError] without it) and keeps,
    in every column, exactly the rows whose label is the choice: the
    filtered label column holds nothing but the choice, and the filtered
    table has as many rows as the matching counter of the page shows. *)
Theorem filter_results_rows (result_df : DataFrame) filter_option :
  filter_results result_df "All" = Ok result_df
  ∧ (filter_option ≠ "All" →
     col_get "sentiment_label" (df_columns result_df) = None →
     filter_results result_df filter_option = Raise KeyError)
  ∧ (∀ labels,
       filter_option ≠ "All" →
       col_get "sentiment_label" (df_columns result_df) = Some labels →
       ∃ filtered,
         filter_results result_df filter_option = Ok filtered
         ∧ (∀ name series,
              col_get name (df_columns result_df) = Some series →
              col_get name (df_columns filtered)
              = Some (mask_select (cell_is filter_option <$> labels) series))
         ∧ (∃ kept, col_get "sentiment_label" (df_columns filtered) = Some kept
                    ∧ Forall (λ x, x = VStr filter_option) kept
                    ∧ Z.of_nat (length kept) = eq_sum labels filter_option)
         ∧ (df_index result_df = length labels →
            Z.of_nat (df_index filtered) = eq_sum labels filter_option)).
Proof.
  unfold filter_results. split_and!.
  - done.
  - intros Hopt Hcol. by rewrite bool_decide_true, Hcol by done.
  - intros labels Hopt Hcol. rewrite bool_decide_true, Hcol by done.
    eexists. split; [done|]. cbn [df_mask df_columns df_index].
    split_and!.
    + intros name series Hs. by rewrite col_get_fmap, Hs.
    + eexists. rewrite col_get_fmap, Hcol. split; [done|].
      split; [apply mask_select_cell_is|apply mask_select_cell_is_length].
    + intros Hidx. rewrite <-mask_select_cell_is_length. f_equal.
      apply mask_select_length. by rewrite length_replicate.
Qed.

Lemma filter_results_rows_witness :
  ∃ filtered,
    filter_results
      {| df_index := 2;
         df_columns := [("text", example_texts);
                        ("sentiment_label",
                         [VStr "Negative"; VStr "Neutral"])] |}
      "Neutral" = Ok filtered
    ∧ (∀ name series,
         col_get name [("text", example_texts);
                       ("sentiment_label", [VStr "Negative"; VStr "Neutral"])]
         = Some series →
         col_get name (df_columns filtered)
         = Some (mask_select
                   (cell_is "Neutral" <$> [VStr "Negative"; VStr "Neutral"])
                   series))
    ∧ (∃ kept, col_get "sentiment_label" (df_columns filtered) = Some kept
               ∧ Forall (λ x, x = VStr "Neutral") kept
               ∧ Z.of_nat (length kept)
                 = eq_sum [VStr "Negative"; VStr "Neutral"] "Neutral")
    ∧ (2 = length [VStr "Negative"; VStr "Neutral"] →
       Z.of_nat (df_index filtered)
       = eq_sum [VStr "Negative"; VStr "Neutral"] "Neutral").
Proof.
  apply (proj2 (proj2 (filter_results_rows
                         {| df_index := 2;
                            df_columns :=
                              [("text", example_texts);
                               ("sentiment_label",
                                [VStr "Negative"; VStr "Neutral"])] |}
                         "Neutral"))
           [VStr "Negative"; VStr "Neutral"]).
  - discriminate.
  - reflexivity.
Defined.

(** X19. The colour of a score cell always goes with its label: green with
    "Positive", red with "Negative", yellow with "Neutral"; and
    [color_sentiment] raises exactly where the label lambda does. *)
Theorem color_agrees_with_label (val : value) :
  match sentiment_label val, color_sentiment val with
  | Ok l, Ok c =>
      (l = VStr "Positive" ∧ c = "background-color: #d4edda")
      ∨ (l = VStr "Negative" ∧ c = "background-color: #f8d7da")
      ∨ (l = VStr "Neutral" ∧ c = "background-color: #fff3cd")
  | Raise e, Raise e' => e = e'
  | _, _ => False
  end.
Proof.
  unfold sentiment_label, color_sentiment, py_gt, py_lt.
  destruct val; simpl; try done; repeat destruct (Qltb _ _); auto.
Qed.

Lemma sum_bounds (qs : list Q) :
  Forall (λ q, (- (1) <= q)%Q ∧ (q <= 1)%Q) qs →
  (- inject_Z (Z.of_nat (length qs)) <= foldr Qplus 0 qs)%Q
  ∧ (foldr Qplus 0 qs <= inject_Z (Z.of_nat (length qs)))%Q.
Proof.
  induction 1 as [|q qs [Hlo Hhi] _ [IHlo IHhi]]; [done|].
  cbn [foldr length]. rewrite Nat2Z.inj_succ, <-Z.add_1_l, inject_Z_plus.
  split.
  - assert (- (inject_Z 1 + inject_Z (Z.of_nat (length qs)))
            == - (1) + - inject_Z (Z.of_nat (length qs)))%Q as -> by ring.
    by apply Qplus_le_compat.
  - by apply Qplus_le_compat.
Qed.

(** X20. The "Avg Score" of the results page is the mean of the row
    scores: it is NaN exactly when the table has no row, and otherwise a
    number in [-1, 1]. *)
Theorem avg_score_range float_str (texts : list value)
    (positive_words negative_words : gset string) :
  let scores := (λ x, continuous_sentiment_score float_str x
                        positive_words negative_words) <$> texts in
  (mean scores = VNaN ↔ texts = [])
  ∧ (∀ q, mean scores = VFloat q → (- (1) <= q)%Q ∧ (q <= 1)%Q).
Proof.
  intros scores. split.
  - destruct texts; simpl; split; done.
  - intros q Hq. destruct texts as [|x texts]; [done|].
    assert (Forall (λ q, (- (1) <= q)%Q ∧ (q <= 1)%Q) scores) as Hall.
    { apply Forall_fmap, Forall_forall. intros y _. apply score_bounds. }
    apply sum_bounds in Hall as [Hlo Hhi].
    unfold mean in Hq. subst scores. csimpl in *. injection Hq as <-.
    set (n := inject_Z _) in *.
    assert (0 < n)%Q as Hn.
    { unfold n. change 0%Q with (inject_Z 0). rewrite <-Zlt_Qlt. lia. }
    split.
    + apply Qle_shift_div_l; [done|].
      by assert (- (1) * n == - n)%Q as -> by ring.
    + apply Qle_shift_div_r; [done|].
      by assert (1 * n == n)%Q as -> by ring.
Qed.

Lemma avg_score_range_witness :
  let scores := (λ x, continuous_sentiment_score (λ _, "") x
                        {["good"]} {["bad"]}) <$> example_texts in
  (- (1) <= foldr Qplus 0 scores / inject_Z (Z.of_nat (length scores)))%Q
  ∧ (foldr Qplus 0 scores / inject_Z (Z.of_nat (length scores)) <= 1)%Q.
Proof.
  apply (proj2 (avg_score_range (λ _, "") example_texts
                  {["good"]} {["bad"]})).
  reflexivity.
Defined.
